(** * dashboard.py: the HIV case dashboard of West Java

    A shallow embedding of the data pipeline of [dashboard.py]: the
    age-group label normaliser of [load_data], the Spark filter and
    group-by queries, the pandas post-processing of the aggregated
    tables and the three insight derivations, together with the
    top-level control flow of the Streamlit script (its [st.stop] and
    [sys.exit] exits).

    Conventions.
    - A Python/Spark string is a list of Unicode code points; Spark
      compares strings by their UTF-8 bytes, which is the code-point
      order.
    - [Jumlah_Kasus] and its sums are unbounded integers [Z]. Spark
      widens the sum of an int column to a 64-bit long and checks it:
      the tables are what the queries yield when no sum overflows,
      and in the script a job whose sum overflows raises.
    - The float expressions [a / b * 100] are modelled by the exact
      rational they denote.
    - Columns are non-null. *)

From Stdlib Require Import String Ascii.
From Stdlib Require Import List ZArith NArith QArith Bool Lia.
From Stdlib Require Import Permutation Sorted DecimalString.
Import ListNotations.

Local Open Scope Z_scope.

(** ** Strings *)

Definition char := N.
Definition str := list char.

Definition str_eqb (a b : str) : bool :=
  if list_eq_dec N.eq_dec a b then true else false.

(** An ASCII literal as a list of code points. *)
Definition lit (s : string) : str :=
  map N_of_ascii (list_ascii_of_string s).

(** [in] of Python and [isin] of Spark on a list of strings. *)
Definition inb (a : str) (l : list str) : bool := existsb (str_eqb a) l.

(** ** Java regular expressions, as far as [load_data] uses them *)

Module Regex.

Inductive regex : Type :=
| Chr (c : char)
| Dot
| Opt (r : regex)
| Seq (r1 r2 : regex)
| Alt (r1 r2 : regex)
| Eps.

(** Java's [.] matches any character but a line terminator. *)
Definition line_terminator (c : char) : bool :=
  (N.eqb c 10 || N.eqb c 13 || N.eqb c 133 || N.eqb c 8232 || N.eqb c 8233)%bool.

(** Backtracking matcher: [matchk r s k] tries every way of matching
    [r] against a prefix of [s] and hands the rest to [k]. *)
Fixpoint matchk (r : regex) (s : str) (k : str -> bool) : bool :=
  match r with
  | Eps => k s
  | Chr c =>
      match s with
      | x :: s' => (N.eqb x c && k s')%bool
      | [] => false
      end
  | Dot =>
      match s with
      | x :: s' => (negb (line_terminator x) && k s')%bool
      | [] => false
      end
  | Opt r1 => (matchk r1 s k || k s)%bool
  | Seq r1 r2 => matchk r1 s (fun s' => matchk r2 s' k)
  | Alt r1 r2 => (matchk r1 s k || matchk r2 s k)%bool
  end.

Definition lookingAt (r : regex) (s : str) : bool := matchk r s (fun _ => true).

(** [Matcher.find]: the pattern matches somewhere in the string. This
    is what Spark's [rlike] evaluates. *)
Fixpoint rlike (s : str) (r : regex) : bool :=
  (lookingAt r s ||
   match s with
   | [] => false
   | _ :: s' => rlike s' r
   end)%bool.

(** A literal word. *)
Fixpoint word (w : str) : regex :=
  match w with
  | [] => Eps
  | c :: w' => Seq (Chr c) (word w')
  end.

(** The shape [a.?b] of the five age-range patterns. *)
Definition loose (a b : str) : regex := Seq (word a) (Seq (Opt Dot) (word b)).

(** The language of a regular expression. *)
Inductive lang : regex -> str -> Prop :=
| L_Eps : lang Eps []
| L_Chr c : lang (Chr c) [c]
| L_Dot c : line_terminator c = false -> lang Dot [c]
| L_Opt_some r s : lang r s -> lang (Opt r) s
| L_Opt_none r : lang (Opt r) []
| L_Seq r1 r2 s1 s2 : lang r1 s1 -> lang r2 s2 -> lang (Seq r1 r2) (s1 ++ s2)
| L_Alt_l r1 r2 s : lang r1 s -> lang (Alt r1 r2) s
| L_Alt_r r1 r2 s : lang r2 s -> lang (Alt r1 r2) s.

End Regex.

Import Regex.

(** ** The label normaliser of [load_data] *)

Definition space : char := 32%N.

(** Spark's [trim]: drops the leading and the trailing spaces. *)
Fixpoint ltrim (s : str) : str :=
  match s with
  | c :: s' => if N.eqb c space then ltrim s' else s
  | [] => []
  end.

Definition rtrim (s : str) : str := rev (ltrim (rev s)).

Definition trim (s : str) : str := rtrim (ltrim s).

(** U+2265, and the three characters its UTF-8 bytes turn into when
    they are read as Windows-1252. *)
Definition ge_sign : char := 8805%N.
Definition mojibake_ge : str := [226; 8240; 165]%N.

Definition label_ge50 : str := ge_sign :: lit "50".

(** [">=50|≥50|â‰¥50"] *)
Definition re_ge50 : regex :=
  Alt (word (lit ">=50"))
      (Alt (word (ge_sign :: lit "50")) (word (mojibake_ge ++ lit "50"))).
(** ["0.?4"] *)
Definition re_0_4 : regex := loose (lit "0") (lit "4").
(** ["5.?14|14-May"] *)
Definition re_5_14 : regex := Alt (loose (lit "5") (lit "14")) (word (lit "14-May")).
(** ["15.?19"] *)
Definition re_15_19 : regex := loose (lit "15") (lit "19").
(** ["20.?24"] *)
Definition re_20_24 : regex := loose (lit "20") (lit "24").
(** ["25.?49"] *)
Definition re_25_49 : regex := loose (lit "25") (lit "49").

(** The [when ... when ... otherwise] chain of the [Kelompok_Umur] column. *)
Definition Kelompok_Umur_when (raw : str) : str :=
  if rlike (trim raw) re_ge50 then label_ge50
  else if rlike (trim raw) re_0_4 then lit "0-4"
  else if rlike (trim raw) re_5_14 then lit "5-14"
  else if rlike (trim raw) re_15_19 then lit "15-19"
  else if rlike (trim raw) re_20_24 then lit "20-24"
  else if rlike (trim raw) re_25_49 then lit "25-49"
  else trim raw.

(** The normaliser as the specification words it: an ordered list of
    (pattern, label) pairs, the first matching pattern wins. *)
Definition pattern_list : list (regex * str) :=
  [ (re_ge50, label_ge50);
    (re_0_4, lit "0-4");
    (re_5_14, lit "5-14");
    (re_15_19, lit "15-19");
    (re_20_24, lit "20-24");
    (re_25_49, lit "25-49") ].

Definition first_match_spec (raw : str) : str :=
  match find (fun p => rlike (trim raw) (fst p)) pattern_list with
  | Some p => snd p
  | None => trim raw
  end.

(** ** The canonical table *)

(** The five columns of the CSV file that the dashboard reads. *)
Record raw_row : Type := {
  nama_kabupaten_kota : str;
  jumlah_kasus : Z;
  kelompok_umur : str;
  jenis_kelamin : str;
  tahun : Z
}.

(** A row after the renaming of [load_data]. *)
Record row : Type := {
  Kabupaten_Kota : str;
  Jumlah_Kasus : Z;
  Kelompok_Umur : str;
  Jenis_Kelamin : str;
  Tahun : Z
}.

Inductive exn : Type :=
| FileNotFoundError (msg : string)
| Exception (msg : string).

Inductive result (A : Type) : Type :=
| Ok (a : A)
| Raise (e : exn).
Arguments Ok {A} a.
Arguments Raise {A} e.

(** What the script finds outside itself: whether [getOrCreate] gives
    a session, whether the CSV path exists, what [spark.read.csv]
    returns for it, whether the Excel and JSON writers of the export
    succeed, and whether the checked 64-bit sums of the four
    aggregating jobs (the total, the age table, the gender table and
    the trend series) go through or raise an overflow, which depends
    on the arithmetic mode of the session and on the order of the
    partial sums. The jobs of a loaded table that sum nothing
    ([distinct], [count], [toPandas] of the view) do not raise. *)
Record environment : Type := {
  getOrCreate : result unit;
  path_exists : bool;
  read_csv : result (list raw_row);
  to_excel : result unit;
  json_dumps : result unit;
  sum_total_kasus : result unit;
  sum_umur : result unit;
  sum_gender : result unit;
  sum_trend : result unit
}.

Definition init_spark (env : environment) : result unit := getOrCreate env.

Definition canonical (r : raw_row) : row :=
  {| Kabupaten_Kota := nama_kabupaten_kota r;
     Jumlah_Kasus := jumlah_kasus r;
     Kelompok_Umur := Kelompok_Umur_when (kelompok_umur r);
     Jenis_Kelamin := jenis_kelamin r;
     Tahun := tahun r |}.

Definition load_data (env : environment) : result (list row) :=
  if negb (path_exists env) then Raise (FileNotFoundError "File CSV tidak ditemukan.")
  else match read_csv env with
       | Raise e => Raise e
       | Ok df => Ok (map canonical df)
       end.

(** ** Spark queries *)

(** A [groupBy] or [distinct] hands its rows back in the order of the
    hash exchange, which Spark leaves unspecified: some rearrangement
    of the groups. *)
Class SparkExchange : Type := {
  exchange : forall {A : Type}, list A -> list A;
  exchange_perm : forall (A : Type) (l : list A), Permutation (exchange l) l
}.

(** The exchange that keeps the groups in the order they were first met. *)
#[refine]
Instance in_order : SparkExchange := {| exchange := fun A l => l |}.
Proof. intros A l. apply Permutation_refl. Defined.

(** The exchange that reverses them. *)
#[refine]
Instance reversed : SparkExchange := {| exchange := fun A l => rev l |}.
Proof. intros A l. apply Permutation_sym, Permutation_rev. Defined.

Section Sorting.
Context {A : Type} (leb : A -> A -> bool).

Fixpoint insert (x : A) (l : list A) : list A :=
  match l with
  | [] => [x]
  | y :: l' => if leb x y then x :: l else y :: insert x l'
  end.

Fixpoint sort (l : list A) : list A :=
  match l with
  | [] => []
  | x :: l' => insert x (sort l')
  end.
End Sorting.

Section Keys.
Context {K : Type} (eqb : K -> K -> bool).

(** Adds [v] to the running sum of key [k]. *)
Fixpoint accumulate (k : K) (v : Z) (acc : list (K * Z)) : list (K * Z) :=
  match acc with
  | [] => [(k, v)]
  | (k', s) :: acc' =>
      if eqb k k' then (k', s + v) :: acc' else (k', s) :: accumulate k v acc'
  end.

Definition sum_from (key : row -> K) (acc : list (K * Z)) (rows : list row)
  : list (K * Z) :=
  fold_left (fun acc r => accumulate (key r) (Jumlah_Kasus r) acc) rows acc.

Definition sum_by (key : row -> K) (rows : list row) : list (K * Z) :=
  sum_from key [] rows.

(** [df.groupBy(key).agg(spark_sum("Jumlah_Kasus").alias("Total"))] *)
Definition groupBy_sum `{SparkExchange} (key : row -> K) (rows : list row)
  : list (K * Z) :=
  exchange (sum_by key rows).

(** [list.index]; [None] stands for its [ValueError]. *)
Fixpoint index_of (a : K) (l : list K) : option nat :=
  match l with
  | [] => None
  | b :: l' =>
      if eqb a b then Some O
      else match index_of a l' with
           | Some i => Some (S i)
           | None => None
           end
  end.

(** First-seen de-duplication: [Series.unique] of pandas. *)
Fixpoint unique_from (seen : list K) (l : list K) : list K :=
  match l with
  | [] => []
  | a :: l' =>
      if existsb (eqb a) seen then unique_from seen l'
      else a :: unique_from (a :: seen) l'
  end.

Definition unique (l : list K) : list K := unique_from [] l.
End Keys.

Fixpoint str_compare (a b : str) : comparison :=
  match a, b with
  | [], [] => Eq
  | [], _ :: _ => Lt
  | _ :: _, [] => Gt
  | x :: a', y :: b' =>
      match N.compare x y with
      | Eq => str_compare a' b'
      | c => c
      end
  end.

Definition str_leb (a b : str) : bool :=
  match str_compare a b with
  | Gt => false
  | _ => true
  end.

Definition str_lt (a b : str) : Prop := str_compare a b = Lt.

(** The aggregate [spark_sum] over a whole table; [None] is the SQL
    NULL that the sum of no rows yields. *)
Definition spark_sum (l : list Z) : option Z :=
  match l with
  | [] => None
  | _ :: _ => Some (fold_left Z.add l 0)
  end.

Definition filtered_spark (df_spark : list row) (tahun_pilih : Z)
  (kota_pilih : list str) : list row :=
  filter (fun r => (Tahun r =? tahun_pilih) && inb (Kabupaten_Kota r) kota_pilih)%bool
         df_spark.

Definition total_kasus (view : list row) : Z :=
  match spark_sum (map Jumlah_Kasus view) with
  | None => 0
  | Some t => t
  end.

Definition jumlah_wilayah `{SparkExchange} (view : list row) : nat :=
  length (exchange (unique str_eqb (map Kabupaten_Kota view))).

Definition orderBy_str (t : list (str * Z)) : list (str * Z) :=
  sort (fun p q => str_leb (fst p) (fst q)) t.

Definition orderBy_Z (t : list (Z * Z)) : list (Z * Z) :=
  sort (fun p q => fst p <=? fst q) t.

Definition df_umur_spark `{SparkExchange} (view : list row) : list (str * Z) :=
  orderBy_str (groupBy_sum str_eqb Kelompok_Umur view).

Definition df_gender_spark `{SparkExchange} (view : list row) : list (str * Z) :=
  groupBy_sum str_eqb Jenis_Kelamin view.

(** The trend query: the canonical table, the regions, and no year. *)
Definition df_trend_spark `{SparkExchange} (df_spark : list row)
  (kota_pilih : list str) : list (Z * Z) :=
  orderBy_Z
    (groupBy_sum Z.eqb Tahun
       (filter (fun r => inb (Kabupaten_Kota r) kota_pilih) df_spark)).

(** ** pandas frames *)

(** A two-column frame: every row carries its index label. *)
Definition frame (K : Type) : Type := list (nat * (K * Z)).

Definition toPandas {K : Type} (t : list (K * Z)) : frame K :=
  combine (seq 0 (List.length t)) t.

Definition empty {K : Type} (df : frame K) : bool :=
  match df with
  | [] => true
  | _ :: _ => false
  end.

Definition rows {K : Type} (df : frame K) : list (K * Z) := map snd df.

(** [df["Total"].idxmax()]: the index label of the first row that
    holds the maximum; [None] stands for the [ValueError] on an empty
    frame. *)
Fixpoint idxmax_from {K : Type} (best : nat) (top : Z) (df : frame K) : nat :=
  match df with
  | [] => best
  | (i, (_, t)) :: df' =>
      if top <? t then idxmax_from i t df' else idxmax_from best top df'
  end.

Definition idxmax {K : Type} (df : frame K) : option nat :=
  match df with
  | [] => None
  | (i, (_, t)) :: df' => Some (idxmax_from i t df')
  end.

(** [df.loc[label]]; [None] stands for its [KeyError]. *)
Definition loc {K : Type} (df : frame K) (label : nat) : option (K * Z) :=
  match find (fun r => Nat.eqb (fst r) label) df with
  | Some r => Some (snd r)
  | None => None
  end.

Definition desired_age_order : list str :=
  [lit "0-4"; lit "5-14"; lit "15-19"; lit "20-24"; lit "25-49"; label_ge50].

Definition final_order (df_umur : frame str) : list str :=
  let unique_ages := unique str_eqb (map fst (rows df_umur)) in
  filter (fun a => inb a unique_ages) desired_age_order
  ++ filter (fun a => negb (inb a desired_age_order)) unique_ages.

(** The order of an ordered [pd.Categorical]: by position in the
    categories, a value outside them (NaN) last. *)
Definition code_leb (categories : list str) (a b : str) : bool :=
  match index_of str_eqb a categories, index_of str_eqb b categories with
  | Some i, Some j => Nat.leb i j
  | Some _, None => true
  | None, Some _ => false
  | None, None => true
  end.

Definition sort_values_categorical (categories : list str) (df : frame str)
  : frame str :=
  sort (fun p q => code_leb categories (fst (snd p)) (fst (snd q))) df.

Definition sort_values_Tahun (df : frame Z) : frame Z :=
  sort (fun p q => fst (snd p) <=? fst (snd q)) df.

(** [df_umur] after the re-ordering of lines 190-198. *)
Definition df_umur `{SparkExchange} (view : list row) : frame str :=
  let df := toPandas (df_umur_spark view) in
  if negb (empty df) then sort_values_categorical (final_order df) df else df.

Definition df_gender `{SparkExchange} (view : list row) : frame str :=
  toPandas (df_gender_spark view).

Definition df_trend `{SparkExchange} (df_spark : list row) (kota_pilih : list str)
  : frame Z :=
  toPandas (df_trend_spark df_spark kota_pilih).

(** ** Insights *)

(** [(part / total * 100) if total else 0] *)
Definition pct (part total : Z) : Q :=
  if total =? 0 then 0%Q else (inject_Z part / inject_Z total * 100)%Q.

Definition kelompok_dominan `{SparkExchange} (view : list row) : option (str * Z) :=
  let df := df_umur view in
  if negb (empty df) then
    match idxmax df with
    | Some label => loc df label
    | None => None
    end
  else None.

(** Name, total and share of the dominant age group; [None] is the
    [except] branch. *)
Definition insight_umur `{SparkExchange} (view : list row) : option (str * Z * Q) :=
  match kelompok_dominan view with
  | Some r => Some (fst r, snd r, pct (snd r) (total_kasus view))
  | None => None
  end.

Definition gender_dom `{SparkExchange} (view : list row) : option (str * Z) :=
  match idxmax (df_gender view) with
  | Some label => loc (df_gender view) label
  | None => None
  end.

Definition insight_gender `{SparkExchange} (view : list row) : option (str * Z * Q) :=
  match gender_dom view with
  | Some r => Some (fst r, snd r, pct (snd r) (total_kasus view))
  | None => None
  end.

(** Lines 329-332: the shares that the narrative prints, 0.0 when the
    insight was not computed. *)
Definition age_pct_safe `{SparkExchange} (view : list row) : Q :=
  match insight_umur view with
  | Some (_, _, age_pct) => age_pct
  | None => 0%Q
  end.

Definition gender_pct_safe `{SparkExchange} (view : list row) : Q :=
  match insight_gender view with
  | Some (_, _, gender_pct) => gender_pct
  | None => 0%Q
  end.

Inductive yoy_text : Type :=
| naik_dari (yoy : Q) (prev : Z)   (* "{yoy:.1f}% naik dari {prev:,}" *)
| tidak_ada_data_sebelumnya        (* "Tidak ada data sebelumnya" *)
| dash.                            (* "-" *)

Definition top_row (df : frame Z) : option (Z * Z) :=
  match idxmax df with
  | Some label => loc df label
  | None => None
  end.

(** Lines 303-322: peak year, its total and the year-over-year text.
    [int(...)] leaves the year and the totals as they are. *)
Definition puncak_tahun (df : frame Z) : option (Z * Z * yoy_text) :=
  match top_row df with
  | None => None
  | Some r =>
      let top_year := fst r in
      let top_total := snd r in
      let sorted_trend := sort_values_Tahun df in
      let years := map fst (rows sorted_trend) in
      let vals := map snd (rows sorted_trend) in
      if existsb (Z.eqb top_year) years then
        match index_of Z.eqb top_year years with
        | None => None
        | Some idx =>
            if (Nat.ltb 0 idx && negb (nth (idx - 1) vals 0 =? 0))%bool then
              let prev := nth (idx - 1) vals 0 in
              Some (top_year, top_total,
                    naik_dari (inject_Z (top_total - prev) / inject_Z prev * 100)%Q prev)
            else Some (top_year, top_total, tidak_ada_data_sebelumnya)
        end
      else Some (top_year, top_total, dash)
  end.

(** ** The script *)

Inductive job : Type :=
| collect_list_tahun
| collect_list_kota
| count_filtered
| toPandas_filtered
| collect_total_kasus
| count_jumlah_wilayah
| toPandas_umur
| toPandas_gender
| toPandas_trend.

Inductive widget : Type :=
| st_error (msg : string)
| st_exception (e : exn)
| st_warning (msg : string)
| st_info (msg : string)
| st_download_button
| st_title
| st_metric (label : string)
| st_plotly_chart (fig : string)
| st_markdown.

(** What a run does, in order: the Spark jobs it starts (every
    [collect], [count] and [toPandas]) and the widgets it draws, as
    far as they are calls of [st.error], [st.exception], [st.warning],
    [st.info], [st.download_button], [st.title], [st.metric],
    [st.plotly_chart] and [st.markdown]. The other calls of the
    script ([st.set_page_config], the sidebar image, headers and
    dividers, [st.header], [st.subheader], [st.divider], [st.write],
    [st.caption], the two select boxes and the multiselect, and the
    layout calls [st.columns], [st.expander] and [st.tabs]) are not
    recorded. *)
Inductive event : Type :=
| Job (j : job)
| Draw (w : widget).

(** How a run ends early: [st.stop], [sys.exit], or an exception that
    no handler of the script catches. *)
Inductive halt : Type :=
| st_stop
| sys_exit (code : Z)
| uncaught (e : exn).

Inductive outcome (A : Type) : Type :=
| Done (a : A)
| Halted (h : halt).
Arguments Done {A} a.
Arguments Halted {A} h.

Definition Script (A : Type) : Type := list event -> outcome A * list event.

Definition ret {A : Type} (a : A) : Script A := fun log => (Done a, log).

Definition bind {A B : Type} (c : Script A) (k : A -> Script B) : Script B :=
  fun log =>
    match c log with
    | (Done a, log') => k a log'
    | (Halted h, log') => (Halted h, log')
    end.

Notation "x <- c ;; k" := (bind c (fun x => k))
  (at level 61, c at next level, right associativity).
Notation "c ;; k" := (bind c (fun _ => k))
  (at level 61, right associativity).

Definition run_job (j : job) : Script unit := fun log => (Done tt, log ++ [Job j]).
Definition draw (w : widget) : Script unit := fun log => (Done tt, log ++ [Draw w]).
Definition halt_with {A : Type} (h : halt) : Script A := fun log => (Halted h, log).

Definition try_except {A : Type} (r : result A) (handler : exn -> Script A)
  : Script A :=
  match r with
  | Ok a => ret a
  | Raise e => handler e
  end.

(** The choices of the "Pilih Format Unduh" select box. *)
Inductive format : Type := CSV | Excel | JSON.

(** Lines 125-166: the export of the filtered view in the sidebar. *)
Definition sidebar_download (env : environment) (format_choice : format)
  : Script unit :=
  let unavailable := draw (st_info "Pilih format yang tersedia untuk mengunduh data") in
  match format_choice with
  | CSV => draw st_download_button
  | Excel =>
      match to_excel env with
      | Ok _ => draw st_download_button
      | Raise _ =>
          draw (st_warning "Excel download tidak tersedia untuk data yang dipilih") ;;
          unavailable
      end
  | JSON =>
      match json_dumps env with
      | Ok _ => draw st_download_button
      | Raise _ => draw (st_warning "JSON download tidak tersedia") ;; unavailable
      end
  end.

(** A Spark job whose sums are checked: it starts, and an overflow
    ends the run, since no handler is around it. *)
Definition sum_job (j : job) (sums : result unit) : Script unit :=
  run_job j ;;
  match sums with
  | Ok _ => ret tt
  | Raise e => halt_with (uncaught e)
  end.

(** Lines 267-270: the trend frame, empty when [toPandas] raises. *)
Definition df_trend_or_empty `{SparkExchange} (env : environment)
  (df_spark : list row) (kota_pilih : list str) : frame Z :=
  match sum_trend env with
  | Ok _ => df_trend df_spark kota_pilih
  | Raise _ => []
  end.

(** The values a complete run has computed: the total, the number of
    regions, the age and gender tables, the trend query of lines
    262-266 ([r_trend]) and the frame that [toPandas] made of it
    ([r_df_trend]), and the three insights. *)
Record report : Type := {
  r_total_kasus : Z;
  r_jumlah_wilayah : nat;
  r_umur : list (str * Z);
  r_gender : list (str * Z);
  r_trend : list (Z * Z);
  r_df_trend : list (Z * Z);
  r_insight_umur : option (str * Z * Q);
  r_insight_gender : option (str * Z * Q);
  r_puncak : option (Z * Z * yoy_text)
}.

(** One run of the script for the sidebar selection
    [(tahun_pilih, kota_pilih, format_choice)]. *)
Definition dashboard `{SparkExchange} (env : environment) (tahun_pilih : Z)
  (kota_pilih : list str) (format_choice : format) : Script report :=
  _ <- try_except (init_spark env)
         (fun e =>
            draw (st_error "Spark gagal dijalankan. Periksa instalasi Java dan Spark.") ;;
            draw (st_exception e) ;;
            halt_with (sys_exit 1)) ;;
  df_spark <- try_except (load_data env)
         (fun e =>
            draw (st_error "Gagal memuat data.") ;;
            draw (st_exception e) ;;
            halt_with (sys_exit 1)) ;;
  run_job collect_list_tahun ;;
  run_job collect_list_kota ;;
  let view := filtered_spark df_spark tahun_pilih kota_pilih in
  run_job count_filtered ;;
  (if Nat.eqb (List.length view) 0
   then draw (st_warning "Data tidak tersedia untuk filter tersebut.") ;;
        halt_with st_stop
   else ret tt) ;;
  run_job toPandas_filtered ;;
  sidebar_download env format_choice ;;
  sum_job collect_total_kasus (sum_total_kasus env) ;;
  run_job count_jumlah_wilayah ;;
  sum_job toPandas_umur (sum_umur env) ;;
  sum_job toPandas_gender (sum_gender env) ;;
  draw st_title ;;
  draw (st_metric "Total Kasus HIV") ;;
  draw (st_metric "Jumlah Wilayah") ;;
  draw (st_plotly_chart "fig_umur") ;;
  draw (st_plotly_chart "fig_gender") ;;
  draw st_markdown ;;
  run_job toPandas_trend ;;
  let trend := df_trend_or_empty env df_spark kota_pilih in
  (if empty trend
   then draw (st_info "Data tren tidak tersedia untuk pilihan filter saat ini.")
   else draw (st_plotly_chart "fig_trend")) ;;
  (match insight_umur view with
   | Some _ => draw (st_metric "Dominan - Kelompok Umur")
   | None => draw (st_info "Data umur tidak tersedia")
   end) ;;
  (match insight_gender view with
   | Some _ => draw (st_metric "Dominan - Jenis Kelamin")
   | None => draw (st_info "Data gender tidak tersedia")
   end) ;;
  (match puncak_tahun trend with
   | Some _ => draw (st_metric "Puncak Tahun")
   | None => draw (st_info "Data tren tidak tersedia")
   end) ;;
  draw st_markdown ;;
  ret {| r_total_kasus := total_kasus view;
         r_jumlah_wilayah := jumlah_wilayah view;
         r_umur := rows (df_umur view);
         r_gender := rows (df_gender view);
         r_trend := df_trend_spark df_spark kota_pilih;
         r_df_trend := rows trend;
         r_insight_umur := insight_umur view;
         r_insight_gender := insight_gender view;
         r_puncak := puncak_tahun trend |}.

Definition run `{SparkExchange} (env : environment) (tahun_pilih : Z)
  (kota_pilih : list str) (format_choice : format) : outcome report * list event :=
  dashboard env tahun_pilih kota_pilih format_choice [].

(** ** Properties the theorems speak about *)

(** [s] contains [a], then at most one character other than a line
    terminator, then [b]. *)
Definition loose_match (a b s : str) : Prop :=
  exists pre mid post,
    s = pre ++ a ++ mid ++ b ++ post /\
    (List.length mid <= 1)%nat /\
    Forall (fun c => line_terminator c = false) mid.

(** [s] contains the word [w]. *)
Definition contains (w s : str) : Prop :=
  exists pre post, s = pre ++ w ++ post.

(** [s] is [a], exactly one character, and [b], and nothing else. *)
Definition one_between (a b s : str) : Prop :=
  exists c, s = a ++ [c] ++ b.

(** [t] is [s] without its leading and trailing spaces. *)
Definition stripped (s t : str) : Prop :=
  (exists l r, s = l ++ t ++ r /\ Forall (eq space) l /\ Forall (eq space) r) /\
  hd_error t <> Some space /\
  hd_error (rev t) <> Some space.

(** The sum of a column of totals. *)
Definition sum_Z (l : list Z) : Z := fold_right Z.add 0 l.

(** The sum of the case counts of the rows whose key is [k]. *)
Definition group_total {K : Type} (eqb : K -> K -> bool) (key : row -> K)
  (k : K) (view : list row) : Z :=
  sum_Z (map Jumlah_Kasus (filter (fun r => eqb (key r) k) view)).

(** The sum of the totals that a table holds for the key [k]. *)
Definition assoc_total {K : Type} (eqb : K -> K -> bool) (k : K)
  (t : list (K * Z)) : Z :=
  sum_Z (map snd (filter (fun p => eqb (fst p) k) t)).

(** [r] is the first row of [t] that holds the largest total: the rows
    before it are strictly smaller, the rows after it are not larger. *)
Definition first_max {K : Type} (t : list (K * Z)) (r : K * Z) : Prop :=
  exists pre post,
    t = pre ++ r :: post /\
    Forall (fun p => snd p < snd r) pre /\
    Forall (fun p => snd p <= snd r) post.

(** The categories of [final_order] for a table with distinct keys. *)
Definition categories_of (keys : list str) : list str :=
  filter (fun a => inb a keys) desired_age_order
  ++ filter (fun a => negb (inb a desired_age_order)) keys.

(** [by_age_group] as the specification words it: the recognised
    buckets in the enumerated order, then the other labels in the
    order in which the view first shows them. *)
Definition by_age_group_spec (view : list row) : list (str * Z) :=
  map (fun a => (a, group_total str_eqb Kelompok_Umur a view))
      (categories_of (unique str_eqb (map Kelompok_Umur view))).

Definition mk_row (kota : string) (kasus : Z) (umur gender : string) (th : Z) : row :=
  {| Kabupaten_Kota := lit kota;
     Jumlah_Kasus := kasus;
     Kelompok_Umur := lit umur;
     Jenis_Kelamin := lit gender;
     Tahun := th |}.

(** A view with two labels that no pattern of the normaliser matches. *)
Definition view_other_labels : list row :=
  [ mk_row "KOTA BANDUNG" 3 "Tidak diketahui" "LAKI-LAKI" 2022;
    mk_row "KOTA BANDUNG" 7 "25-49" "LAKI-LAKI" 2022;
    mk_row "KOTA BANDUNG" 2 "Lainnya" "PEREMPUAN" 2022;
    mk_row "KOTA BANDUNG" 1 "0-4" "PEREMPUAN" 2022 ].

(** A table in which the 2022 view has two age groups and two genders
    with the same total, and the two years have the same total. *)
Definition df_ties : list row :=
  [ mk_row "KOTA BANDUNG" 4 "25-49" "LAKI-LAKI" 2022;
    mk_row "KOTA BANDUNG" 4 "0-4" "PEREMPUAN" 2022;
    mk_row "KOTA BANDUNG" 8 "25-49" "PEREMPUAN" 2021 ].

Definition kota_bandung : list str := [lit "KOTA BANDUNG"].

(** No entry of the series has a year before [y]. *)
Definition earliest (y : Z) (trend : list (Z * Z)) : Prop :=
  forall r, In r trend -> y <= fst r.

(** [e] is the entry of the series right before the entry of year [y]. *)
Definition preceding (trend : list (Z * Z)) (y : Z) (e : Z * Z) : Prop :=
  exists pre t post, trend = pre ++ e :: (y, t) :: post.

(** The year-over-year text for a peak of total [top_total] that has
    the entries [pre] before it. *)
Definition yoy_of (pre : list (Z * Z)) (top_total : Z) : yoy_text :=
  match rev pre with
  | [] => tidak_ada_data_sebelumnya
  | (_, prev) :: _ =>
      if prev =? 0 then tidak_ada_data_sebelumnya
      else naik_dari (inject_Z (top_total - prev) / inject_Z prev * 100)%Q prev
  end.

(** The scenario of the specification. *)
Definition df_example : list row :=
  [ mk_row "KOTA BANDUNG" 10 "0-4" "LAKI-LAKI" 2022;
    mk_row "KOTA BANDUNG" 5 "0-4" "PEREMPUAN" 2022;
    mk_row "KOTA BANDUNG" 8 "0-4" "LAKI-LAKI" 2021 ].

(** A table whose earlier year has no case at all. *)
Definition df_zero_year : list row :=
  [ mk_row "KOTA BANJAR" 0 "0-4" "LAKI-LAKI" 2020;
    mk_row "KOTA BANJAR" 0 "0-4" "PEREMPUAN" 2020;
    mk_row "KOTA BANJAR" 5 "25-49" "LAKI-LAKI" 2021 ].

Definition kota_banjar : list str := [lit "KOTA BANJAR"].

Definition mk_raw (kota : string) (kasus : Z) (umur gender : string) (th : Z)
  : raw_row :=
  {| nama_kabupaten_kota := lit kota;
     jumlah_kasus := kasus;
     kelompok_umur := lit umur;
     jenis_kelamin := lit gender;
     tahun := th |}.

(** An environment whose CSV file holds the scenario of the
    specification, with labels as the source file spells them. *)
Definition env_example : environment :=
  {| getOrCreate := Ok tt;
     path_exists := true;
     read_csv :=
       Ok [ mk_raw "KOTA BANDUNG" 10 " 0-4" "LAKI-LAKI" 2022;
            mk_raw "KOTA BANDUNG" 5 "0-4 " "PEREMPUAN" 2022;
            mk_raw "KOTA BANDUNG" 8 "0-4" "LAKI-LAKI" 2021 ];
     to_excel := Ok tt;
     json_dumps := Ok tt;
     sum_total_kasus := Ok tt;
     sum_umur := Ok tt;
     sum_gender := Ok tt;
     sum_trend := Ok tt |}.

(** An environment without the CSV file. *)
Definition env_missing : environment :=
  {| getOrCreate := Ok tt;
     path_exists := false;
     read_csv := Raise (Exception "Path does not exist");
     to_excel := Ok tt;
     json_dumps := Ok tt;
     sum_total_kasus := Ok tt;
     sum_umur := Ok tt;
     sum_gender := Ok tt;
     sum_trend := Ok tt |}.

(** The events of a run that finds no row for its selection. *)
Definition log_no_data : list event :=
  [ Job collect_list_tahun; Job collect_list_kota; Job count_filtered;
    Draw (st_warning "Data tidak tersedia untuk filter tersebut.") ].

(** The events of a run that cannot load its data. *)
Definition log_load_failure (e : exn) : list event :=
  [ Draw (st_error "Gagal memuat data."); Draw (st_exception e) ].

(** The jobs that aggregate a view. *)
Definition aggregation_job (j : job) : bool :=
  match j with
  | collect_total_kasus | count_jumlah_wilayah
  | toPandas_umur | toPandas_gender | toPandas_trend => true
  | _ => false
  end.

(** ** The sidebar lists and the summary of the selection *)

(** Lines 71-77: the years of the table, latest first. *)
Definition list_tahun `{SparkExchange} (df_spark : list row) : list Z :=
  sort (fun a b => b <=? a) (exchange (unique Z.eqb (map Tahun df_spark))).

(** Lines 78-84: the regions of the table, in ascending order. *)
Definition list_kota `{SparkExchange} (df_spark : list row) : list str :=
  sort str_leb (exchange (unique str_eqb (map Kabupaten_Kota df_spark))).

(** What the select box of line 86 holds before the user touches it:
    the first option, or nothing when there is no option. *)
Definition default_tahun `{SparkExchange} (df_spark : list row) : option Z :=
  hd_error (list_tahun df_spark).

(** [sep.join(l)] *)
Fixpoint join (sep : str) (l : list str) : str :=
  match l with
  | [] => []
  | a :: l' =>
      match l' with
      | [] => a
      | _ :: _ => a ++ sep ++ join sep l'
      end
  end.

(** The decimal digits of a number, as an f-string prints it. *)
Definition decimal (n : nat) : str :=
  lit (NilEmpty.string_of_uint (Nat.to_uint n)).

(** Lines 217-226. *)
Definition wilayah_display (kota_pilih list_kota : list str) : str :=
  if Nat.eqb (List.length kota_pilih) (List.length list_kota) then
    lit "Semua Kota/Kabupaten"
  else
    let n_kota := List.length kota_pilih in
    if Nat.eqb n_kota 1 then nth 0 kota_pilih []
    else if Nat.leb n_kota 3 then join (lit ", ") kota_pilih
    else join (lit ", ") (firstn 3 kota_pilih)
         ++ lit " dan " ++ decimal (n_kota - 3) ++ lit " lainnya".

(** ** Properties the further theorems speak about *)

(** A decimal digit. *)
Definition digit (c : char) : bool := (N.leb 48 c && N.leb c 57)%bool.

(** The events of a run that cannot start Spark. *)
Definition log_spark_failure (e : exn) : list event :=
  [ Draw (st_error "Spark gagal dijalankan. Periksa instalasi Java dan Spark.");
    Draw (st_exception e) ].

(** The events of the sidebar export. *)
Definition log_sidebar (env : environment) (format_choice : format) : list event :=
  snd (sidebar_download env format_choice []).

(** The events of a run that draws the whole dashboard: the trend
    chart and the peak metric when the trend series arrives, the two
    trend notes in their place when its [toPandas] raises. *)
Definition log_complete (env : environment) (format_choice : format) : list event :=
  [ Job collect_list_tahun; Job collect_list_kota; Job count_filtered;
    Job toPandas_filtered ]
  ++ log_sidebar env format_choice
  ++ [ Job collect_total_kasus; Job count_jumlah_wilayah;
       Job toPandas_umur; Job toPandas_gender;
       Draw st_title;
       Draw (st_metric "Total Kasus HIV");
       Draw (st_metric "Jumlah Wilayah");
       Draw (st_plotly_chart "fig_umur");
       Draw (st_plotly_chart "fig_gender");
       Draw st_markdown;
       Job toPandas_trend ]
  ++ match sum_trend env with
     | Ok _ =>
         [ Draw (st_plotly_chart "fig_trend");
           Draw (st_metric "Dominan - Kelompok Umur");
           Draw (st_metric "Dominan - Jenis Kelamin");
           Draw (st_metric "Puncak Tahun") ]
     | Raise _ =>
         [ Draw (st_info "Data tren tidak tersedia untuk pilihan filter saat ini.");
           Draw (st_metric "Dominan - Kelompok Umur");
           Draw (st_metric "Dominan - Jenis Kelamin");
           Draw (st_info "Data tren tidak tersedia") ]
     end
  ++ [ Draw st_markdown ].

(** The report of a run that draws the whole dashboard. *)
Definition report_of `{SparkExchange} (env : environment) (df_spark : list row)
  (tahun_pilih : Z) (kota_pilih : list str) : report :=
  let view := filtered_spark df_spark tahun_pilih kota_pilih in
  let trend := df_trend_or_empty env df_spark kota_pilih in
  {| r_total_kasus := total_kasus view;
     r_jumlah_wilayah := jumlah_wilayah view;
     r_umur := rows (df_umur view);
     r_gender := rows (df_gender view);
     r_trend := df_trend_spark df_spark kota_pilih;
     r_df_trend := rows trend;
     r_insight_umur := insight_umur view;
     r_insight_gender := insight_gender view;
     r_puncak := puncak_tahun trend |}.

(** A table with two regions. *)
Definition df_two_regions : list row :=
  [ mk_row "KOTA BANDUNG" 10 "25-49" "LAKI-LAKI" 2022;
    mk_row "KOTA BOGOR" 4 "25-49" "LAKI-LAKI" 2022;
    mk_row "KOTA BOGOR" 3 "20-24" "PEREMPUAN" 2022;
    mk_row "KOTA BANDUNG" 6 "25-49" "PEREMPUAN" 2021 ].

Definition kota_bogor : list str := [lit "KOTA BOGOR"].


(** An environment in which Spark does not start. *)
Definition env_no_spark : environment :=
  {| getOrCreate := Raise (Exception "Java gateway process exited");
     path_exists := true;
     read_csv := Ok [];
     to_excel := Ok tt;
     json_dumps := Ok tt;
     sum_total_kasus := Ok tt;
     sum_umur := Ok tt;
     sum_gender := Ok tt;
     sum_trend := Ok tt |}.

(** ** The claims as the specification words them, and their data *)

(** The characters with the Unicode property White_Space. *)
Definition whitespace (c : char) : bool :=
  ((N.leb 9 c && N.leb c 13) || N.eqb c 32 || N.eqb c 133 || N.eqb c 160
   || N.eqb c 5760 || (N.leb 8192 c && N.leb c 8202) || N.eqb c 8232
   || N.eqb c 8233 || N.eqb c 8239 || N.eqb c 8287 || N.eqb c 12288)%bool.

Fixpoint lstrip (s : str) : str :=
  match s with
  | c :: s' => if whitespace c then lstrip s' else s
  | [] => []
  end.

(** [s] without its surrounding whitespace. *)
Definition strip_whitespace (s : str) : str := rev (lstrip (rev (lstrip s))).

(** The normaliser as the specification words it: the surrounding
    whitespace is stripped, then the first matching pattern decides,
    else the stripped string is returned. *)
Definition normalizer_as_claimed (raw : str) : str :=
  match find (fun p => rlike (strip_whitespace raw) (fst p)) pattern_list with
  | Some p => snd p
  | None => strip_whitespace raw
  end.

Definition tab : char := 9%N.
Definition nbsp : char := 160%N.

(** [order] is the display order of the age groups of [view]: the
    buckets that occur in the view, in the enumerated order, then the
    other labels of the view in ascending order. *)
Definition display_order (view : list row) (order : list str) : Prop :=
  exists unrecognized,
    order = filter (fun a => inb a (map Kelompok_Umur view)) desired_age_order
            ++ unrecognized /\
    StronglySorted str_lt unrecognized /\
    (forall a, In a unrecognized <->
               In a (map Kelompok_Umur view) /\ ~ In a desired_age_order).

(** A table in which the 2022 view has the buckets 5-14 and 15-19 with
    the same total (the string "15-19" sorts before "5-14"), two
    genders with the same total, and two years with the same total. *)
Definition df_ties_display : list row :=
  [ mk_row "KOTA BANDUNG" 4 "15-19" "LAKI-LAKI" 2022;
    mk_row "KOTA BANDUNG" 4 "5-14" "PEREMPUAN" 2022;
    mk_row "KOTA BANDUNG" 1 "Lainnya" "LAKI-LAKI" 2022;
    mk_row "KOTA BANDUNG" 1 "Lainnya" "PEREMPUAN" 2022;
    mk_row "KOTA BANDUNG" 10 "25-49" "PEREMPUAN" 2021 ].

(** * Proofs *)

(** ** Regular expressions *)


Lemma matchk_spec (r : regex) :
  forall (s : str) (k : str -> bool),
    matchk r s k = true <->
    exists s1 s2, s = s1 ++ s2 /\ lang r s1 /\ k s2 = true.
Proof.
  induction r as [c | | r IH | r1 IH1 r2 IH2 | r1 IH1 r2 IH2 | ];
    intros s k; simpl.
  - destruct s as [| x s'].
    + split; [discriminate |].
      intros (s1 & s2 & E & L & _). inversion L; subst. discriminate.
    + rewrite andb_true_iff, N.eqb_eq. split.
      * intros [-> K]. exists [c], s'. repeat split; [constructor | exact K].
      * intros (s1 & s2 & E & L & K). inversion L; subst.
        simpl in E. injection E as -> ->. auto.
  - destruct s as [| x s'].
    + split; [discriminate |].
      intros (s1 & s2 & E & L & _). inversion L; subst. discriminate.
    + rewrite andb_true_iff, negb_true_iff. split.
      * intros [T K]. exists [x], s'. repeat split; [constructor; exact T | exact K].
      * intros (s1 & s2 & E & L & K). inversion L; subst.
        simpl in E. injection E as -> ->. auto.
  - rewrite orb_true_iff, IH. split.
    + intros [(s1 & s2 & E & L & K) | K].
      * exists s1, s2. repeat split; [exact E | constructor; exact L | exact K].
      * exists [], s. repeat split; [apply L_Opt_none | exact K].
    + intros (s1 & s2 & E & L & K). inversion L; subst.
      * left. exists s1, s2. auto.
      * right. exact K.
  - rewrite IH1. split.
    + intros (s1 & s2 & E & L1 & K). apply IH2 in K.
      destruct K as (s3 & s4 & E' & L2 & K). subst.
      exists (s1 ++ s3), s4. rewrite <- app_assoc.
      repeat split; [constructor; assumption | exact K].
    + intros (s1 & s2 & E & L & K). inversion L; subst.
      rewrite <- app_assoc.
      eexists _, _. split; [reflexivity |]. split; [eassumption |].
      apply IH2. eexists _, _. repeat split; eassumption.
  - rewrite orb_true_iff, IH1, IH2. split.
    + intros [(s1 & s2 & E & L & K) | (s1 & s2 & E & L & K)];
        exists s1, s2; repeat split; auto using lang.
    + intros (s1 & s2 & E & L & K). inversion L; subst;
        [left | right]; exists s1, s2; auto.
  - split.
    + intros K. exists [], s. repeat split; [constructor | exact K].
    + intros (s1 & s2 & E & L & K). inversion L; subst. exact K.
Qed.

Lemma lookingAt_spec (r : regex) (s : str) :
  lookingAt r s = true <-> exists m post, s = m ++ post /\ lang r m.
Proof.
  unfold lookingAt. rewrite matchk_spec. split.
  - intros (m & post & E & L & _). eauto.
  - intros (m & post & E & L). eauto 6.
Qed.

Lemma rlike_spec (r : regex) (s : str) :
  rlike s r = true <-> exists pre m post, s = pre ++ m ++ post /\ lang r m.
Proof.
  induction s as [| x s IH]; simpl; rewrite orb_true_iff, lookingAt_spec.
  - split.
    + intros [(m & post & E & L) | F]; [| discriminate].
      exists [], m, post. auto.
    + intros (pre & m & post & E & L).
      destruct pre; [| discriminate]. left. exists m, post. auto.
  - rewrite IH. split.
    + intros [(m & post & E & L) | (pre & m & post & E & L)].
      * exists [], m, post. auto.
      * exists (x :: pre), m, post. subst. auto.
    + intros (pre & m & post & E & L). destruct pre as [| y pre].
      * left. exists m, post. auto.
      * right. injection E as -> ->. exists pre, m, post. auto.
Qed.

Lemma lang_word (w m : str) : lang (word w) m <-> m = w.
Proof.
  revert m. induction w as [| c w IH]; intro m; simpl.
  - split; [intro L; inversion L; reflexivity | intros ->; constructor].
  - split.
    + intro L. inversion L as [| | | | | r1 r2 s1 s2 L1 L2 | |]; subst.
      inversion L1; subst. apply IH in L2. subst. reflexivity.
    + intros ->. change (c :: w) with ([c] ++ w).
      constructor; [constructor | apply IH; reflexivity].
Qed.

Lemma lang_opt_dot (m : str) :
  lang (Opt Dot) m <->
  (List.length m <= 1)%nat /\ Forall (fun c => line_terminator c = false) m.
Proof.
  split.
  - intro L. inversion L as [| | | r s D | | | |]; subst.
    + inversion D; subst. simpl. split; [lia | auto].
    + simpl. split; [lia | constructor].
  - intros [Len F]. destruct m as [| c [| d m]]; simpl in Len; try lia.
    + apply L_Opt_none.
    + inversion F; subst. apply L_Opt_some, L_Dot. assumption.
Qed.

Lemma lang_loose (a b m : str) :
  lang (loose a b) m <->
  exists mid, m = a ++ mid ++ b /\
              (List.length mid <= 1)%nat /\
              Forall (fun c => line_terminator c = false) mid.
Proof.
  unfold loose. split.
  - intro L. inversion L as [| | | | | r1 r2 s1 s2 L1 L2 | |]; subst.
    inversion L2 as [| | | | | r1' r2' s3 s4 L3 L4 | |]; subst.
    apply lang_word in L1. apply lang_word in L4. apply lang_opt_dot in L3.
    subst. exists s3. tauto.
  - intros (mid & -> & Len & F).
    constructor; [apply lang_word; reflexivity |].
    constructor; [apply lang_opt_dot; auto | apply lang_word; reflexivity].
Qed.

Lemma rlike_loose (a b s : str) :
  rlike s (loose a b) = true <-> loose_match a b s.
Proof.
  rewrite rlike_spec. unfold loose_match. split.
  - intros (pre & m & post & -> & L). apply lang_loose in L.
    destruct L as (mid & -> & Len & F).
    exists pre, mid, post. repeat rewrite <- app_assoc. auto.
  - intros (pre & mid & post & -> & Len & F).
    exists pre, (a ++ mid ++ b), post. split.
    + repeat rewrite <- app_assoc. reflexivity.
    + apply lang_loose. eauto.
Qed.

Lemma rlike_word (w s : str) :
  rlike s (word w) = true <-> contains w s.
Proof.
  rewrite rlike_spec. unfold contains. split.
  - intros (pre & m & post & -> & L). apply lang_word in L. subst. eauto.
  - intros (pre & post & ->). exists pre, w, post.
    split; [reflexivity | apply lang_word; reflexivity].
Qed.

Lemma rlike_Alt (r1 r2 : regex) (s : str) :
  rlike s (Alt r1 r2) = (rlike s r1 || rlike s r2)%bool.
Proof.
  apply eq_true_iff_eq. rewrite orb_true_iff, !rlike_spec. split.
  - intros (pre & m & post & E & L). inversion L; subst; [left | right]; eauto.
  - intros [(pre & m & post & E & L) | (pre & m & post & E & L)];
      exists pre, m, post; auto using lang.
Qed.


(** ** The label normaliser *)

Lemma ltrim_spec (s : str) :
  exists l, s = l ++ ltrim s /\ Forall (eq space) l /\
            hd_error (ltrim s) <> Some space.
Proof.
  induction s as [| c s (l & E & F & H)]; simpl.
  - exists []. repeat split; [constructor | discriminate].
  - destruct (N.eqb c space) eqn:C.
    + apply N.eqb_eq in C. subst c. exists (space :: l).
      simpl. rewrite <- E. repeat split; [constructor; auto | exact H].
    + exists []. repeat split; [constructor |].
      simpl. intros [= ->]. rewrite N.eqb_refl in C. discriminate.
Qed.

Lemma trim_stripped (s : str) : stripped s (trim s).
Proof.
  unfold stripped, trim, rtrim.
  destruct (ltrim_spec s) as (l & E & Fl & Hl).
  destruct (ltrim_spec (rev (ltrim s))) as (r & E' & Fr & Hr).
  set (u := ltrim s) in *. set (v := ltrim (rev u)) in *.
  assert (Eu : u = rev v ++ rev r).
  { rewrite <- rev_app_distr, <- E', rev_involutive. reflexivity. }
  repeat split.
  - exists l, (rev r). split; [| split].
    + rewrite <- Eu. exact E.
    + exact Fl.
    + apply Forall_rev. exact Fr.
  - destruct (rev v) as [| c w] eqn:V; simpl; [discriminate |].
    rewrite Eu in Hl. simpl in Hl. exact Hl.
  - rewrite rev_involutive. exact Hr.
Qed.

Lemma Kelompok_Umur_when_first_match (raw : str) :
  Kelompok_Umur_when raw = first_match_spec raw.
Proof.
  unfold Kelompok_Umur_when, first_match_spec, pattern_list. simpl.
  repeat match goal with
         | |- context [rlike (trim raw) ?r] => destruct (rlike (trim raw) r)
         end; reflexivity.
Qed.

Lemma find_first (A : Type) (f : A -> bool) (pre post : list A) (p : A) :
  (forall q, In q pre -> f q = false) -> f p = true ->
  find f (pre ++ p :: post) = Some p.
Proof.
  induction pre as [| q pre IH]; intros N T; simpl.
  - rewrite T. reflexivity.
  - rewrite (N q (or_introl eq_refl)). apply IH; [| exact T].
    intros q' I. apply N. right. exact I.
Qed.

Lemma find_none (A : Type) (f : A -> bool) (l : list A) :
  (forall q, In q l -> f q = false) -> find f l = None.
Proof.
  induction l as [| q l IH]; intros N; simpl; [reflexivity |].
  rewrite (N q (or_introl eq_refl)). apply IH.
  intros q' I. apply N. right. exact I.
Qed.

(** C1, as the code has it. The normaliser strips the surrounding
    spaces (U+0020, and no other whitespace) of the raw label
    and tests the trimmed string against the ordered pattern list
    (the marker of fifty and over, then the loose ranges 0-4, 5-14 with
    the literal 14-May, 15-19, 20-24 and 25-49): it returns the label of
    the first pattern that matches, and the trimmed string itself when
    none does. *)
Theorem normalizer_first_match_wins (raw : str) :
  stripped raw (trim raw) /\
  Kelompok_Umur_when raw = first_match_spec raw /\
  (forall pre p post,
      pattern_list = pre ++ p :: post ->
      (forall q, In q pre -> rlike (trim raw) (fst q) = false) ->
      rlike (trim raw) (fst p) = true ->
      Kelompok_Umur_when raw = snd p) /\
  ((forall q, In q pattern_list -> rlike (trim raw) (fst q) = false) ->
   Kelompok_Umur_when raw = trim raw).
Proof.
  split; [apply trim_stripped |].
  split; [apply Kelompok_Umur_when_first_match |].
  split.
  - intros pre p post E N T.
    rewrite Kelompok_Umur_when_first_match. unfold first_match_spec.
    rewrite E, (find_first _ (fun p => rlike (trim raw) (fst p)) pre post p N T).
    reflexivity.
  - intros N. rewrite Kelompok_Umur_when_first_match. unfold first_match_spec.
    rewrite (find_none _ (fun p => rlike (trim raw) (fst p)) _ N). reflexivity.
Qed.

(** A label that both the 0-4 and the 20-24 pattern match: the earlier
    pattern decides. *)
Lemma normalizer_first_match_wins_witness :
  Kelompok_Umur_when (lit " 20-240-4 ") = lit "0-4" /\
  rlike (lit "20-240-4") re_20_24 = true /\
  Kelompok_Umur_when (lit " 15 s/d 19 ") = lit "15 s/d 19".
Proof.
  pose proof (normalizer_first_match_wins (lit " 20-240-4 ")) as (_ & _ & F & _).
  pose proof (normalizer_first_match_wins (lit " 15 s/d 19 ")) as (_ & _ & _ & G).
  split; [| split].
  - apply (F [(re_ge50, label_ge50)] (re_0_4, lit "0-4")
             [(re_5_14, lit "5-14"); (re_15_19, lit "15-19");
              (re_20_24, lit "20-24"); (re_25_49, lit "25-49")]).
    + reflexivity.
    + intros q [<- | []]. vm_compute. reflexivity.
    + vm_compute. reflexivity.
  - vm_compute. reflexivity.
  - rewrite G.
    + vm_compute. reflexivity.
    + intros q I. unfold pattern_list in I. simpl in I.
      repeat (destruct I as [<- | I]; [vm_compute; reflexivity |]).
      destruct I.
Defined.

(** C1, as the claim has it, fails: a tab or a no-break space around
    a label is whitespace, and [trim] leaves it in place, so that a
    label that no pattern matches comes back with it. *)
Lemma normalizer_keeps_other_whitespace :
  Kelompok_Umur_when (tab :: lit "Lainnya" ++ [tab]) = tab :: lit "Lainnya" ++ [tab] /\
  normalizer_as_claimed (tab :: lit "Lainnya" ++ [tab]) = lit "Lainnya" /\
  Kelompok_Umur_when (nbsp :: lit "Lainnya") = nbsp :: lit "Lainnya" /\
  normalizer_as_claimed (nbsp :: lit "Lainnya") = lit "Lainnya" /\
  ~ (forall raw, Kelompok_Umur_when raw = normalizer_as_claimed raw).
Proof.
  split; [vm_compute; reflexivity |].
  split; [vm_compute; reflexivity |].
  split; [vm_compute; reflexivity |].
  split; [vm_compute; reflexivity |].
  intro H. specialize (H (tab :: lit "Lainnya" ++ [tab])).
  vm_compute in H. discriminate H.
Qed.

(** C4, as the code has it. Each loose age-range pattern matches
    exactly the strings that contain, anywhere, the first endpoint,
    then at most one character that is not a line terminator, then
    the second endpoint; the 5-14 pattern also matches the strings
    that contain the literal 14-May. *)
Theorem loose_patterns_match (s : str) :
  (rlike s re_0_4 = true <-> loose_match (lit "0") (lit "4") s) /\
  (rlike s re_5_14 = true <->
   loose_match (lit "5") (lit "14") s \/ contains (lit "14-May") s) /\
  (rlike s re_15_19 = true <-> loose_match (lit "15") (lit "19") s) /\
  (rlike s re_20_24 = true <-> loose_match (lit "20") (lit "24") s) /\
  (rlike s re_25_49 = true <-> loose_match (lit "25") (lit "49") s).
Proof.
  unfold re_0_4, re_5_14, re_15_19, re_20_24, re_25_49.
  rewrite rlike_Alt, orb_true_iff, rlike_word, !rlike_loose. tauto.
Qed.

(** C4, as the claim has it, fails: the 0-4 pattern matches a string
    with nothing between the two numbers, and a string that holds
    more than the two endpoints. *)
Lemma loose_patterns_not_exactly_one :
  ~ (forall s, rlike s re_0_4 = true <-> one_between (lit "0") (lit "4") s) /\
  (rlike (lit "04") re_0_4 = true /\ ~ one_between (lit "0") (lit "4") (lit "04")) /\
  (rlike (lit "40-44") re_0_4 = true /\
   ~ one_between (lit "0") (lit "4") (lit "40-44")).
Proof.
  assert (A : ~ one_between (lit "0") (lit "4") (lit "04")).
  { intros (c & E). discriminate E. }
  assert (B : ~ one_between (lit "0") (lit "4") (lit "40-44")).
  { intros (c & E). discriminate E. }
  split; [| split; split; auto].
  intro H. apply A, H. reflexivity.
Qed.

(** ** Sorting *)

Section SortFacts.
Context {A : Type} (leb : A -> A -> bool).

Lemma insert_perm (x : A) (l : list A) : Permutation (insert leb x l) (x :: l).
Proof.
  induction l as [| y l IH]; simpl; [reflexivity |].
  destruct (leb x y); [reflexivity |].
  rewrite IH. apply perm_swap.
Qed.

Lemma sort_perm (l : list A) : Permutation (sort leb l) l.
Proof.
  induction l as [| x l IH]; simpl; [reflexivity |].
  rewrite insert_perm, IH. reflexivity.
Qed.

Lemma sort_sorted_id (l : list A) : StronglySorted (fun x y => leb x y = true) l -> sort leb l = l.
Proof.
  induction 1 as [| x l S IH F]; simpl; [reflexivity |].
  rewrite IH. destruct l as [| y l']; simpl; [reflexivity |].
  inversion F as [| ? ? Hxy _]; subst. rewrite Hxy. reflexivity.
Qed.

Hypothesis leb_total : forall x y, leb x y = true \/ leb y x = true.
Hypothesis leb_trans : forall x y z, leb x y = true -> leb y z = true -> leb x z = true.

Lemma insert_sorted (x : A) (l : list A) :
  StronglySorted (fun x y => leb x y = true) l ->
  StronglySorted (fun x y => leb x y = true) (insert leb x l).
Proof.
  induction 1 as [| y l S IH F]; simpl.
  - repeat constructor.
  - destruct (leb x y) eqn:C.
    + constructor; [constructor; assumption |].
      constructor; [exact C |].
      eapply Forall_impl; [| exact F]. intros z Hz. simpl in *. eauto.
    + constructor; [exact IH |].
      assert (Hyx : leb y x = true)
        by (destruct (leb_total x y); [congruence | assumption]).
      eapply Permutation_Forall; [symmetry; apply insert_perm |].
      constructor; assumption.
Qed.

Lemma sort_sorted (l : list A) :
  StronglySorted (fun x y => leb x y = true) (sort leb l).
Proof.
  induction l as [| x l IH]; simpl; [constructor | apply insert_sorted, IH].
Qed.
End SortFacts.

(** Two sorted arrangements of the same elements are the same list,
    when the order separates the elements. *)
Lemma sorted_perm_unique (A : Type) (R : A -> A -> Prop) (l l' : list A) :
  StronglySorted R l -> StronglySorted R l' -> Permutation l l' ->
  (forall x y, In x l -> In y l -> R x y -> R y x -> x = y) ->
  l = l'.
Proof.
  intros S. revert l'. induction S as [| x l S IH F]; intros l' S' P Anti.
  - apply Permutation_nil in P. subst. reflexivity.
  - destruct S' as [| y l' S' F'].
    + apply Permutation_sym, Permutation_nil in P. discriminate.
    + assert (x = y) as <-.
      { assert (Ix : In x (y :: l')) by (eapply Permutation_in; [exact P | left; reflexivity]).
        assert (Iy : In y (x :: l))
          by (eapply Permutation_in; [symmetry; exact P | left; reflexivity]).
        destruct Ix as [-> | Ix]; [reflexivity |].
        destruct Iy as [-> | Iy]; [reflexivity |].
        rewrite Forall_forall in F, F'.
        apply Anti; [left; reflexivity | right; exact Iy | auto | auto]. }
      f_equal. apply IH.
      * exact S'.
      * eapply Permutation_cons_inv. exact P.
      * intros a b Ia Ib. apply Anti; right; assumption.
Qed.

Lemma StronglySorted_impl_in (A : Type) (R R' : A -> A -> Prop) (l : list A) :
  (forall x y, In x l -> In y l -> R x y -> R' x y) ->
  StronglySorted R l -> StronglySorted R' l.
Proof.
  intros I S. induction S as [| x l S IH F]; constructor.
  - apply IH. intros a b Ia Ib. apply I; right; assumption.
  - rewrite Forall_forall in *. intros y Iy.
    apply I; [left; reflexivity | right; exact Iy | auto].
Qed.

Lemma StronglySorted_map (A B : Type) (g : A -> B) (R : B -> B -> Prop) (l : list A) :
  StronglySorted (fun x y => R (g x) (g y)) l <-> StronglySorted R (map g l).
Proof.
  induction l as [| x l IH]; simpl.
  - split; constructor.
  - split; intro S; inversion S; subst; constructor;
      try (apply IH; assumption); rewrite Forall_forall in *.
    + intros b Ib. apply in_map_iff in Ib. destruct Ib as (a & <- & Ia). auto.
    + intros a Ia. auto using in_map.
Qed.

Lemma map_insert (A B : Type) (g : A -> B) (leA : A -> A -> bool)
  (leB : B -> B -> bool) (x : A) (l : list A) :
  (forall a b, leA a b = leB (g a) (g b)) ->
  map g (insert leA x l) = insert leB (g x) (map g l).
Proof.
  intro E. induction l as [| y l IH]; simpl; [reflexivity |].
  rewrite <- E. destruct (leA x y); simpl; [reflexivity | rewrite IH; reflexivity].
Qed.

Lemma map_sort (A B : Type) (g : A -> B) (leA : A -> A -> bool)
  (leB : B -> B -> bool) (l : list A) :
  (forall a b, leA a b = leB (g a) (g b)) ->
  map g (sort leA l) = sort leB (map g l).
Proof.
  intro E. induction l as [| x l IH]; simpl; [reflexivity |].
  rewrite (map_insert _ _ g leA leB _ _ E), IH. reflexivity.
Qed.

(** ** Sums *)

Lemma fold_left_add (l : list Z) (a : Z) :
  fold_left Z.add l a = a + sum_Z l.
Proof.
  revert a. induction l as [| x l IH]; intro a; simpl; [lia |].
  rewrite IH. lia.
Qed.

Lemma sum_Z_perm (l l' : list Z) : Permutation l l' -> sum_Z l = sum_Z l'.
Proof.
  induction 1; simpl; lia.
Qed.

Lemma total_kasus_sum (view : list row) :
  total_kasus view = sum_Z (map Jumlah_Kasus view).
Proof.
  unfold total_kasus, spark_sum. destruct (map Jumlah_Kasus view) eqn:E.
  - reflexivity.
  - rewrite fold_left_add. lia.
Qed.

(** ** Group-by *)

Section GroupFacts.
Context {K : Type} (eqb : K -> K -> bool).
Hypothesis eqb_eq : forall a b, eqb a b = true <-> a = b.
Variable key : row -> K.

Lemma eqb_refl (a : K) : eqb a a = true.
Proof. apply eqb_eq. reflexivity. Qed.

Lemma eqb_neq (a b : K) : eqb a b = false <-> a <> b.
Proof.
  rewrite <- eqb_eq. destruct (eqb a b); split; congruence.
Qed.

Lemma accumulate_in_keys (k k' : K) (v : Z) (acc : list (K * Z)) :
  In k' (map fst (accumulate eqb k v acc)) <-> k' = k \/ In k' (map fst acc).
Proof.
  induction acc as [| [k0 s] acc IH]; simpl.
  - intuition congruence.
  - destruct (eqb k k0) eqn:E; simpl.
    + apply eqb_eq in E. subst. intuition congruence.
    + rewrite IH. intuition congruence.
Qed.

Lemma accumulate_NoDup (k : K) (v : Z) (acc : list (K * Z)) :
  NoDup (map fst acc) -> NoDup (map fst (accumulate eqb k v acc)).
Proof.
  induction acc as [| [k0 s] acc IH]; simpl; intro N.
  - repeat constructor. intros [].
  - inversion N as [| ? ? Hn N']; subst.
    destruct (eqb k k0) eqn:E; simpl.
    + constructor; assumption.
    + constructor; [| apply IH; exact N'].
      rewrite accumulate_in_keys. intros [-> | I]; [| contradiction].
      rewrite eqb_refl in E. discriminate.
Qed.

Lemma accumulate_sum (k : K) (v : Z) (acc : list (K * Z)) :
  sum_Z (map snd (accumulate eqb k v acc)) = sum_Z (map snd acc) + v.
Proof.
  induction acc as [| [k0 s] acc IH]; simpl; [lia |].
  destruct (eqb k k0); simpl; [lia | rewrite IH; lia].
Qed.

Lemma accumulate_assoc (k k' : K) (v : Z) (acc : list (K * Z)) :
  NoDup (map fst acc) ->
  assoc_total eqb k' (accumulate eqb k v acc)
  = assoc_total eqb k' acc + (if eqb k k' then v else 0).
Proof.
  unfold assoc_total.
  induction acc as [| [k0 s] acc IH]; simpl; intro N.
  - destruct (eqb k k'); simpl; lia.
  - inversion N as [| ? ? Hn N']; subst.
    destruct (eqb k k0) eqn:E; simpl.
    + apply eqb_eq in E. subst k0.
      destruct (eqb k k'); simpl; lia.
    + destruct (eqb k0 k') eqn:E'; simpl; rewrite (IH N'); lia.
Qed.

Lemma sum_from_cons (acc : list (K * Z)) (r : row) (rows : list row) :
  sum_from eqb key acc (r :: rows)
  = sum_from eqb key (accumulate eqb (key r) (Jumlah_Kasus r) acc) rows.
Proof. reflexivity. Qed.

Lemma sum_from_NoDup (rows : list row) :
  forall acc, NoDup (map fst acc) -> NoDup (map fst (sum_from eqb key acc rows)).
Proof.
  induction rows as [| r rows IH]; intros acc N; [exact N |].
  rewrite sum_from_cons. apply IH, accumulate_NoDup, N.
Qed.

Lemma sum_from_in_keys (k : K) (rows : list row) :
  forall acc,
    In k (map fst (sum_from eqb key acc rows)) <->
    In k (map fst acc) \/ In k (map key rows).
Proof.
  induction rows as [| r rows IH]; intros acc; [simpl; tauto |].
  rewrite sum_from_cons, IH, accumulate_in_keys. simpl.
  intuition congruence.
Qed.

Lemma sum_from_sum (rows : list row) :
  forall acc,
    sum_Z (map snd (sum_from eqb key acc rows))
    = sum_Z (map snd acc) + sum_Z (map Jumlah_Kasus rows).
Proof.
  induction rows as [| r rows IH]; intros acc; [simpl; lia |].
  rewrite sum_from_cons, IH, accumulate_sum. simpl. lia.
Qed.

Lemma sum_from_assoc (k : K) (rows : list row) :
  forall acc,
    NoDup (map fst acc) ->
    assoc_total eqb k (sum_from eqb key acc rows)
    = assoc_total eqb k acc + group_total eqb key k rows.
Proof.
  unfold group_total.
  induction rows as [| r rows IH]; intros acc N; [simpl; lia |].
  rewrite sum_from_cons, IH by (apply accumulate_NoDup, N).
  rewrite (accumulate_assoc _ _ _ _ N). simpl.
  destruct (eqb (key r) k); simpl; lia.
Qed.

Lemma sum_by_NoDup (rows : list row) : NoDup (map fst (sum_by eqb key rows)).
Proof. apply (sum_from_NoDup rows []). constructor. Qed.

Lemma sum_by_in_keys (k : K) (rows : list row) :
  In k (map fst (sum_by eqb key rows)) <-> In k (map key rows).
Proof.
  unfold sum_by. rewrite sum_from_in_keys. simpl. tauto.
Qed.

Lemma sum_by_sum (rows : list row) :
  sum_Z (map snd (sum_by eqb key rows)) = sum_Z (map Jumlah_Kasus rows).
Proof. apply (sum_from_sum rows []). Qed.

Lemma sum_by_assoc (k : K) (rows : list row) :
  assoc_total eqb k (sum_by eqb key rows) = group_total eqb key k rows.
Proof. apply (sum_from_assoc k rows []). constructor. Qed.

Lemma assoc_total_perm (k : K) (t t' : list (K * Z)) :
  Permutation t t' -> assoc_total eqb k t = assoc_total eqb k t'.
Proof.
  intro P. unfold assoc_total. apply sum_Z_perm, Permutation_map.
  induction P; simpl.
  - reflexivity.
  - destruct (eqb (fst x) k); [constructor |]; assumption.
  - destruct (eqb (fst x) k), (eqb (fst y) k);
      try reflexivity; [apply perm_swap].
  - etransitivity; eassumption.
Qed.

Lemma assoc_total_entry (k : K) (v : Z) (t : list (K * Z)) :
  NoDup (map fst t) -> In (k, v) t -> assoc_total eqb k t = v.
Proof.
  unfold assoc_total.
  induction t as [| [k0 s] t IH]; simpl; intros N I; [contradiction |].
  inversion N as [| ? ? Hn N']; subst.
  destruct I as [[= -> ->] | I].
  - rewrite eqb_refl. simpl.
    assert (E : filter (fun p => eqb (fst p) k) t = []).
    { clear -Hn eqb_eq. induction t as [| [k1 s1] t IH]; simpl; [reflexivity |].
      simpl in Hn. destruct (eqb k1 k) eqn:E.
      - apply eqb_eq in E. subst. tauto.
      - apply IH. tauto. }
    rewrite E. simpl. lia.
  - destruct (eqb k0 k) eqn:E.
    + apply eqb_eq in E. subst k0. exfalso. apply Hn.
      change k with (fst (k, v)). apply in_map. exact I.
    + apply IH; assumption.
Qed.

(** What every arrangement of the groups has in common. *)
Lemma groupBy_sum_spec `{SparkExchange} (rows : list row) :
  let t := groupBy_sum eqb key rows in
  NoDup (map fst t) /\
  (forall k, In k (map fst t) <-> In k (map key rows)) /\
  sum_Z (map snd t) = sum_Z (map Jumlah_Kasus rows) /\
  (forall k v, In (k, v) t -> v = group_total eqb key k rows).
Proof.
  unfold groupBy_sum. set (g := sum_by eqb key rows).
  pose proof (exchange_perm _ g) as P.
  assert (N : NoDup (map fst (exchange g))).
  { eapply Permutation_NoDup; [apply Permutation_map, Permutation_sym, P |].
    apply sum_by_NoDup. }
  repeat split.
  - exact N.
  - intro I. apply sum_by_in_keys.
    eapply Permutation_in; [apply Permutation_map, P | exact I].
  - intro I. apply sum_by_in_keys in I.
    eapply Permutation_in; [apply Permutation_map, Permutation_sym, P | exact I].
  - rewrite <- sum_by_sum. apply sum_Z_perm, Permutation_map, P.
  - intros k v I. rewrite <- sum_by_assoc. fold g.
    rewrite <- (assoc_total_perm k _ _ P). symmetry.
    apply assoc_total_entry; assumption.
Qed.
End GroupFacts.

Lemma str_eqb_eq (a b : str) : str_eqb a b = true <-> a = b.
Proof.
  unfold str_eqb. destruct (list_eq_dec N.eq_dec a b); split; congruence.
Qed.

Lemma inb_In (a : str) (l : list str) : inb a l = true <-> In a l.
Proof.
  unfold inb. rewrite existsb_exists. split.
  - intros (x & I & E). apply str_eqb_eq in E. subst. exact I.
  - intro I. exists a. split; [exact I | apply str_eqb_eq; reflexivity].
Qed.

(** ** Frames *)

Section FrameFacts.
Context {K : Type}.

Lemma combine_seq (t : list (K * Z)) :
  forall n,
    map snd (combine (seq n (List.length t)) t) = t /\
    map fst (combine (seq n (List.length t)) t) = seq n (List.length t).
Proof.
  induction t as [| r t IH]; intro n; simpl; [split; reflexivity |].
  destruct (IH (S n)) as [E1 E2]. rewrite E1, E2. split; reflexivity.
Qed.

Lemma rows_toPandas (t : list (K * Z)) : rows (toPandas t) = t.
Proof. apply combine_seq. Qed.

Lemma labels_toPandas (t : list (K * Z)) : NoDup (map fst (toPandas t)).
Proof.
  unfold toPandas. rewrite (proj2 (combine_seq t 0)). apply seq_NoDup.
Qed.

Lemma toPandas_nil (t : list (K * Z)) : toPandas t = [] <-> t = [].
Proof.
  split; [| intros ->; reflexivity].
  intro E. rewrite <- (rows_toPandas t), E. reflexivity.
Qed.

Lemma idxmax_from_spec (df : frame K) :
  forall best top,
    (idxmax_from best top df = best /\
     Forall (fun r => snd (snd r) <= top) df) \/
    (exists pre i k t post,
        df = pre ++ (i, (k, t)) :: post /\
        idxmax_from best top df = i /\
        top < t /\
        Forall (fun r => snd (snd r) < t) pre /\
        Forall (fun r => snd (snd r) <= t) post).
Proof.
  induction df as [| [i [k t]] df IH]; intros best top; simpl.
  - left. split; [reflexivity | constructor].
  - destruct (top <? t) eqn:C.
    + apply Z.ltb_lt in C. right.
      destruct (IH i t) as [[E F] | (pre & i' & k' & t' & post & E & R & L & Fp & Fq)].
      * exists [], i, k, t, df. repeat split; auto.
      * exists ((i, (k, t)) :: pre), i', k', t', post. subst df.
        split; [reflexivity |]. split; [exact R |]. split; [lia |].
        split; [constructor; [simpl; lia | exact Fp] | exact Fq].
    + apply Z.ltb_ge in C.
      destruct (IH best top) as [[E F] | (pre & i' & k' & t' & post & E & R & L & Fp & Fq)].
      * left. split; [exact E |]. constructor; [simpl; lia | exact F].
      * right. exists ((i, (k, t)) :: pre), i', k', t', post. subst df.
        split; [reflexivity |]. split; [exact R |]. split; [lia |].
        split; [constructor; [simpl; lia | exact Fp] | exact Fq].
Qed.

Lemma idxmax_spec (df : frame K) :
  df <> [] ->
  exists pre i k t post,
    df = pre ++ (i, (k, t)) :: post /\
    idxmax df = Some i /\
    Forall (fun r => snd (snd r) < t) pre /\
    Forall (fun r => snd (snd r) <= t) post.
Proof.
  destruct df as [| [i [k t]] df]; [congruence |]. intros _. simpl.
  destruct (idxmax_from_spec df i t)
    as [[E F] | (pre & i' & k' & t' & post & E & R & L & Fp & Fq)].
  - exists [], i, k, t, df. rewrite E. repeat split; auto.
  - exists ((i, (k, t)) :: pre), i', k', t', post. subst df. rewrite R.
    split; [reflexivity |]. split; [reflexivity |].
    split; [constructor; [simpl; lia | exact Fp] | exact Fq].
Qed.

Lemma loc_middle (pre post : frame K) (i : nat) (r : K * Z) :
  NoDup (map fst (pre ++ (i, r) :: post)) ->
  loc (pre ++ (i, r) :: post) i = Some r.
Proof.
  unfold loc. induction pre as [| [j q] pre IH]; simpl; intro N.
  - rewrite Nat.eqb_refl. reflexivity.
  - inversion N as [| ? ? Hn N']; subst.
    destruct (Nat.eqb j i) eqn:E.
    + apply Nat.eqb_eq in E. subst j. exfalso. apply Hn.
      rewrite map_app. apply in_or_app. right. left. reflexivity.
    + apply IH. exact N'.
Qed.

(** [df.loc[df["Total"].idxmax()]] is the first row with the largest
    total. *)
Lemma loc_idxmax (df : frame K) :
  NoDup (map fst df) -> df <> [] ->
  exists i r,
    idxmax df = Some i /\ loc df i = Some r /\ first_max (rows df) r.
Proof.
  intros N NE.
  destruct (idxmax_spec df NE) as (pre & i & k & t & post & E & I & Fp & Fq).
  exists i, (k, t). split; [exact I |]. subst df. split.
  - apply loc_middle. exact N.
  - exists (rows pre), (rows post). unfold rows. rewrite map_app. simpl.
    split; [reflexivity |]. split; apply Forall_map; simpl; assumption.
Qed.
End FrameFacts.

(** ** The order of strings and the sorted Spark tables *)

Lemma str_compare_eq (a b : str) : str_compare a b = Eq <-> a = b.
Proof.
  revert b. induction a as [| x a IH]; intros [| y b]; simpl;
    try (split; [discriminate | congruence]); [tauto |].
  destruct (N.compare x y) eqn:C.
  - apply N.compare_eq in C. subst y. rewrite IH. split; congruence.
  - split; [discriminate |]. intros [= -> _]. rewrite N.compare_refl in C. discriminate.
  - split; [discriminate |]. intros [= -> _]. rewrite N.compare_refl in C. discriminate.
Qed.

Lemma str_compare_antisym (a b : str) :
  str_compare b a = CompOpp (str_compare a b).
Proof.
  revert b. induction a as [| x a IH]; intros [| y b]; simpl; try reflexivity.
  rewrite (N.compare_antisym x y).
  destruct (N.compare x y); simpl; [apply IH | reflexivity | reflexivity].
Qed.

Lemma str_compare_trans (a b c : str) :
  str_compare a b = Lt -> str_compare b c = Lt -> str_compare a c = Lt.
Proof.
  revert b c. induction a as [| x a IH]; intros [| y b] [| z c]; simpl;
    try congruence.
  destruct (N.compare x y) eqn:Cxy; try discriminate;
    destruct (N.compare y z) eqn:Cyz; try discriminate.
  - apply N.compare_eq in Cxy, Cyz. subst. rewrite N.compare_refl. apply IH.
  - apply N.compare_eq in Cxy. subst. rewrite Cyz. reflexivity.
  - apply N.compare_eq in Cyz. subst. rewrite Cxy. reflexivity.
  - rewrite N.compare_lt_iff in *.
    assert (L : (x < z)%N) by (eapply N.lt_trans; eassumption).
    apply N.compare_lt_iff in L. rewrite L. reflexivity.
Qed.

Lemma str_leb_total (a b : str) : str_leb a b = true \/ str_leb b a = true.
Proof.
  unfold str_leb. rewrite (str_compare_antisym a b).
  destruct (str_compare a b); simpl; auto.
Qed.

Lemma str_leb_lt (a b : str) : str_leb a b = true -> a <> b -> str_lt a b.
Proof.
  unfold str_leb, str_lt. destruct (str_compare a b) eqn:C; try congruence.
  apply str_compare_eq in C. congruence.
Qed.

Lemma str_leb_trans (a b c : str) :
  str_leb a b = true -> str_leb b c = true -> str_leb a c = true.
Proof.
  unfold str_leb. intros Hab Hbc.
  destruct (str_compare a b) eqn:Cab; try discriminate;
    destruct (str_compare b c) eqn:Cbc; try discriminate.
  - apply str_compare_eq in Cab, Cbc. subst.
    destruct (str_compare c c) eqn:C; try reflexivity.
    assert (E : str_compare c c = Eq) by (apply str_compare_eq; reflexivity).
    congruence.
  - apply str_compare_eq in Cab. subst. rewrite Cbc. reflexivity.
  - apply str_compare_eq in Cbc. subst. rewrite Cab. reflexivity.
  - rewrite (str_compare_trans a b c Cab Cbc). reflexivity.
Qed.

Lemma sorted_strict (A B : Type) (R R' : A -> A -> Prop) (g : A -> B)
  (l : list A) :
  (forall x y, R x y -> g x <> g y -> R' x y) ->
  StronglySorted R l -> NoDup (map g l) -> StronglySorted R' l.
Proof.
  intros I S. induction S as [| x l S IH F]; simpl; intro N; constructor;
    inversion N as [| ? ? Hn N']; subst.
  - apply IH. exact N'.
  - rewrite Forall_forall in *. intros y Iy. apply I; [auto |].
    intro E. apply Hn. rewrite E. apply in_map. exact Iy.
Qed.

(** The age table of Spark: one row per label of the view, in
    ascending order of the labels, each with the total of its rows. *)
Lemma df_umur_spark_spec `{SparkExchange} (view : list row) :
  let t := df_umur_spark view in
  StronglySorted (fun p q => str_lt (fst p) (fst q)) t /\
  NoDup (map fst t) /\
  (forall k, In k (map fst t) <-> In k (map Kelompok_Umur view)) /\
  sum_Z (map snd t) = sum_Z (map Jumlah_Kasus view) /\
  (forall k v, In (k, v) t -> v = group_total str_eqb Kelompok_Umur k view).
Proof.
  unfold df_umur_spark, orderBy_str.
  set (g := groupBy_sum str_eqb Kelompok_Umur view).
  destruct (groupBy_sum_spec str_eqb str_eqb_eq Kelompok_Umur view)
    as (N & Keys & Sum & Tot). fold g in N, Keys, Sum, Tot.
  set (leb := fun p q : str * Z => str_leb (fst p) (fst q)).
  pose proof (sort_perm leb g) as P.
  assert (N' : NoDup (map fst (sort leb g))).
  { eapply Permutation_NoDup; [apply Permutation_map, Permutation_sym, P | exact N]. }
  split; [| split; [exact N' | split; [| split]]].
  - apply (sorted_strict _ _ (fun p q => leb p q = true) _ fst); [| | exact N'].
    + intros x y L D. apply str_leb_lt; [exact L | exact D].
    + apply sort_sorted.
      * intros x y. apply str_leb_total.
      * intros x y z. apply str_leb_trans.
  - intro k. rewrite <- Keys. split; intro I.
    + eapply Permutation_in; [apply Permutation_map, P | exact I].
    + eapply Permutation_in; [apply Permutation_map, Permutation_sym, P | exact I].
  - rewrite <- Sum. apply sum_Z_perm, Permutation_map, P.
  - intros k v I. apply Tot. eapply Permutation_in; [exact P | exact I].
Qed.

(** The trend table: one row per year of the selected regions, in
    ascending order of the years. *)
Lemma df_trend_spark_spec `{SparkExchange} (df_spark : list row) (kota_pilih : list str) :
  let regional := filter (fun r => inb (Kabupaten_Kota r) kota_pilih) df_spark in
  let t := df_trend_spark df_spark kota_pilih in
  StronglySorted (fun p q => fst p < fst q) t /\
  NoDup (map fst t) /\
  (forall y, In y (map fst t) <-> In y (map Tahun regional)) /\
  sum_Z (map snd t) = sum_Z (map Jumlah_Kasus regional) /\
  (forall y v, In (y, v) t -> v = group_total Z.eqb Tahun y regional).
Proof.
  unfold df_trend_spark, orderBy_Z.
  set (regional := filter (fun r => inb (Kabupaten_Kota r) kota_pilih) df_spark).
  set (g := groupBy_sum Z.eqb Tahun regional).
  destruct (groupBy_sum_spec Z.eqb Z.eqb_eq Tahun regional)
    as (N & Keys & Sum & Tot). fold g in N, Keys, Sum, Tot.
  set (leb := fun p q : Z * Z => fst p <=? fst q).
  pose proof (sort_perm leb g) as P.
  assert (N' : NoDup (map fst (sort leb g))).
  { eapply Permutation_NoDup; [apply Permutation_map, Permutation_sym, P | exact N]. }
  split; [| split; [exact N' | split; [| split]]].
  - apply (sorted_strict _ _ (fun p q => leb p q = true) _ fst); [| | exact N'].
    + intros x y L D. unfold leb in L. apply Z.leb_le in L. lia.
    + apply sort_sorted.
      * intros x y. unfold leb. rewrite !Z.leb_le. lia.
      * intros x y z. unfold leb. rewrite !Z.leb_le. lia.
  - intro k. rewrite <- Keys. split; intro I.
    + eapply Permutation_in; [apply Permutation_map, P | exact I].
    + eapply Permutation_in; [apply Permutation_map, Permutation_sym, P | exact I].
  - rewrite <- Sum. apply sum_Z_perm, Permutation_map, P.
  - intros k v I. apply Tot. eapply Permutation_in; [exact P | exact I].
Qed.

(** ** The display order of the age table *)

Section IndexFacts.
Context {K : Type} (eqb : K -> K -> bool).
Hypothesis eqb_eq : forall a b, eqb a b = true <-> a = b.

Lemma unique_from_id (l : list K) :
  forall seen,
    NoDup l -> (forall a, In a l -> ~ In a seen) ->
    unique_from eqb seen l = l.
Proof.
  induction l as [| a l IH]; intros seen N D; simpl; [reflexivity |].
  inversion N as [| ? ? Hn N']; subst.
  assert (E : existsb (eqb a) seen = false).
  { apply not_true_is_false. rewrite existsb_exists.
    intros (x & I & E). apply eqb_eq in E. subst x.
    apply (D a); [left; reflexivity | exact I]. }
  rewrite E. f_equal. apply IH; [exact N' |].
  intros b Ib [<- | Is]; [contradiction |].
  apply (D b); [right; exact Ib | exact Is].
Qed.

Lemma unique_id (l : list K) : NoDup l -> unique eqb l = l.
Proof. intro N. apply unique_from_id; [exact N | intros a _ []]. Qed.

Lemma index_of_In (a : K) (l : list K) :
  In a l -> exists i, index_of eqb a l = Some i.
Proof.
  induction l as [| b l IH]; simpl; [contradiction |].
  intros [-> | I].
  - rewrite (proj2 (eqb_eq a a) eq_refl). eauto.
  - destruct (eqb a b); [eauto |].
    destruct (IH I) as (i & ->). eauto.
Qed.

Lemma index_of_nth (a : K) (l : list K) :
  forall i, index_of eqb a l = Some i -> nth_error l i = Some a.
Proof.
  induction l as [| b l IH]; simpl; intros i E; [discriminate |].
  destruct (eqb a b) eqn:C.
  - apply eqb_eq in C. injection E as <-. subst. reflexivity.
  - destruct (index_of eqb a l) as [j |]; [| discriminate].
    injection E as <-. simpl. apply IH. reflexivity.
Qed.

Lemma index_of_middle (pre post : list K) (a : K) :
  ~ In a pre -> index_of eqb a (pre ++ a :: post) = Some (List.length pre).
Proof.
  induction pre as [| b pre IH]; simpl; intro N.
  - rewrite (proj2 (eqb_eq a a) eq_refl). reflexivity.
  - destruct (eqb a b) eqn:C.
    + apply eqb_eq in C. subst. tauto.
    + rewrite IH by tauto. reflexivity.
Qed.
End IndexFacts.

Lemma code_leb_total (cats : list str) (a b : str) :
  code_leb cats a b = true \/ code_leb cats b a = true.
Proof.
  unfold code_leb.
  destruct (index_of str_eqb a cats) as [i |], (index_of str_eqb b cats) as [j |];
    auto.
  rewrite !Nat.leb_le. lia.
Qed.

Lemma code_leb_trans (cats : list str) (a b c : str) :
  code_leb cats a b = true -> code_leb cats b c = true -> code_leb cats a c = true.
Proof.
  unfold code_leb.
  destruct (index_of str_eqb a cats) as [i |], (index_of str_eqb b cats) as [j |],
    (index_of str_eqb c cats) as [k |]; auto; try discriminate.
  rewrite !Nat.leb_le. lia.
Qed.

Lemma code_leb_antisym (cats : list str) (a b : str) :
  In a cats -> In b cats ->
  code_leb cats a b = true -> code_leb cats b a = true -> a = b.
Proof.
  unfold code_leb. intros Ia Ib.
  destruct (index_of_In str_eqb str_eqb_eq a cats Ia) as (i & Ei).
  destruct (index_of_In str_eqb str_eqb_eq b cats Ib) as (j & Ej).
  rewrite Ei, Ej, !Nat.leb_le. intros L1 L2.
  assert (i = j) by lia. subst j.
  apply (index_of_nth str_eqb str_eqb_eq) in Ei, Ej. congruence.
Qed.

Lemma categories_sorted (cats : list str) :
  NoDup cats -> StronglySorted (fun a b => code_leb cats a b = true) cats.
Proof.
  induction cats as [| x cats IH]; intro N; constructor;
    inversion N as [| ? ? Hn N']; subst.
  - eapply StronglySorted_impl_in; [| apply IH; exact N'].
    intros a b Ia Ib. unfold code_leb. simpl.
    assert (Ea : str_eqb a x = false).
    { apply not_true_is_false. rewrite str_eqb_eq. congruence. }
    assert (Eb : str_eqb b x = false).
    { apply not_true_is_false. rewrite str_eqb_eq. congruence. }
    rewrite Ea, Eb.
    destruct (index_of str_eqb a cats), (index_of str_eqb b cats); auto.
  - rewrite Forall_forall. intros b Ib. unfold code_leb. simpl.
    rewrite (proj2 (str_eqb_eq x x) eq_refl).
    destruct (str_eqb b x); [reflexivity |].
    destruct (index_of_In str_eqb str_eqb_eq b cats Ib) as (j & ->). reflexivity.
Qed.

Lemma desired_age_order_NoDup : NoDup desired_age_order.
Proof.
  unfold desired_age_order.
  repeat (constructor; [simpl; intuition discriminate |]). constructor.
Qed.

Lemma entries_of_keys (K : Type) (f : K -> Z) (t : list (K * Z)) :
  (forall k v, In (k, v) t -> v = f k) ->
  t = map (fun a => (a, f a)) (map fst t).
Proof.
  induction t as [| [k v] t IH]; simpl; intro E; [reflexivity |].
  rewrite (E k v (or_introl eq_refl)). f_equal.
  apply IH. intros k' v' I. apply E. right. exact I.
Qed.

Lemma NoDup_keys_inj (K : Type) (t : list (K * Z)) (p q : K * Z) :
  NoDup (map fst t) -> In p t -> In q t -> fst p = fst q -> p = q.
Proof.
  induction t as [| r t IH]; simpl; intros N Ip Iq E; [contradiction |].
  inversion N as [| ? ? Hn N']; subst.
  destruct Ip as [-> | Ip], Iq as [-> | Iq].
  - reflexivity.
  - exfalso. apply Hn. rewrite E. apply in_map. exact Iq.
  - exfalso. apply Hn. rewrite <- E. apply in_map. exact Ip.
  - apply IH; assumption.
Qed.

Lemma StronglySorted_filter (A : Type) (R : A -> A -> Prop) (f : A -> bool)
  (l : list A) :
  StronglySorted R l -> StronglySorted R (filter f l).
Proof.
  induction 1 as [| x l S IH F]; simpl; [constructor |].
  destruct (f x); [| exact IH]. constructor; [exact IH |].
  rewrite Forall_forall in *. intros y Iy. apply filter_In in Iy. apply F, Iy.
Qed.

Lemma categories_of_perm (keys : list str) :
  NoDup keys ->
  NoDup (categories_of keys) /\ Permutation (categories_of keys) keys.
Proof.
  intro N. unfold categories_of.
  assert (N' : NoDup (filter (fun a => inb a keys) desired_age_order
                      ++ filter (fun a => negb (inb a desired_age_order)) keys)).
  { apply NoDup_app.
    - apply NoDup_filter, desired_age_order_NoDup.
    - apply NoDup_filter, N.
    - intros a Ia Ib. apply filter_In in Ia, Ib.
      destruct Ia as [Ia _], Ib as [_ Ib].
      apply inb_In in Ia. rewrite Ia in Ib. discriminate. }
  split; [exact N' |].
  apply NoDup_Permutation; [exact N' | exact N |].
  intro a. rewrite in_app_iff, !filter_In, negb_true_iff, inb_In.
  destruct (inb a desired_age_order) eqn:E.
  - apply inb_In in E. intuition discriminate.
  - split; [intros [[I _] | [I _]]; [| exact I] | auto].
    apply inb_In in I. rewrite I in E. discriminate.
Qed.

(** The rows of [df_umur] in display order: the categories of
    [final_order], each with the total of its rows. *)
Lemma rows_df_umur `{SparkExchange} (view : list row) :
  rows (df_umur view)
  = map (fun a => (a, group_total str_eqb Kelompok_Umur a view))
        (categories_of (map fst (df_umur_spark view))).
Proof.
  destruct (df_umur_spark_spec view) as (S & N & Keys & _ & Tot).
  set (t := df_umur_spark view) in *.
  set (cats := categories_of (map fst t)).
  set (f := fun a => group_total str_eqb Kelompok_Umur a view).
  set (leb := fun p q : str * Z => code_leb cats (fst p) (fst q)).
  destruct (categories_of_perm (map fst t) N) as (Nc & Pc). fold cats in Nc, Pc.
  assert (E : rows (df_umur view) = sort leb t).
  { unfold df_umur. fold t.
    assert (F : final_order (toPandas t) = cats).
    { unfold final_order. rewrite rows_toPandas.
      rewrite (unique_id str_eqb str_eqb_eq _ N). reflexivity. }
    destruct (empty (toPandas t)) eqn:Em; simpl.
    - destruct (toPandas t) eqn:Et; [| discriminate].
      apply toPandas_nil in Et. rewrite Et. reflexivity.
    - unfold sort_values_categorical, rows. rewrite F.
      rewrite (map_sort _ _ snd _ leb) by reflexivity.
      fold (rows (toPandas t)). rewrite rows_toPandas. reflexivity. }
  rewrite E.
  assert (Pt : Permutation (map (fun a => (a, f a)) cats) t).
  { pose proof (entries_of_keys _ f t Tot) as Et.
    eapply perm_trans; [apply (Permutation_map (fun a => (a, f a)) Pc) |].
    rewrite <- Et. reflexivity. }
  apply sorted_perm_unique with (R := fun p q => leb p q = true).
  - apply sort_sorted.
    + intros x y. apply code_leb_total.
    + intros x y z. apply code_leb_trans.
  - apply (proj1 (StronglySorted_map _ _ (fun a => (a, f a))
                    (fun p q => leb p q = true) cats)).
    exact (categories_sorted cats Nc).
  - rewrite sort_perm. symmetry. exact Pt.
  - intros x y Ix Iy L1 L2.
    assert (Ix' : In x t) by (eapply Permutation_in; [apply sort_perm | exact Ix]).
    assert (Iy' : In y t) by (eapply Permutation_in; [apply sort_perm | exact Iy]).
    apply (NoDup_keys_inj _ t); [exact N | exact Ix' | exact Iy' |].
    apply (code_leb_antisym cats); [| | exact L1 | exact L2].
    + eapply Permutation_in; [symmetry; exact Pc | apply in_map; exact Ix'].
    + eapply Permutation_in; [symmetry; exact Pc | apply in_map; exact Iy'].
Qed.

Lemma rows_df_umur_perm `{SparkExchange} (view : list row) :
  Permutation (rows (df_umur view)) (df_umur_spark view).
Proof.
  destruct (df_umur_spark_spec view) as (_ & N & _ & _ & Tot).
  rewrite rows_df_umur.
  pose proof (entries_of_keys _ _ (df_umur_spark view) Tot) as Et.
  eapply perm_trans; [apply Permutation_map, categories_of_perm, N |].
  rewrite <- Et. reflexivity.
Qed.

(** C9, as the code has it. The rows of the age table are, for every
    view: the recognised buckets that occur in the view, in the
    enumerated order, then the other labels of the view in ascending
    order of the label (the order of the Spark table), each with the
    sum of the case counts of its rows. *)
Theorem by_age_group_display_order `{SparkExchange} (view : list row) :
  exists unrecognized,
    rows (df_umur view)
    = map (fun a => (a, group_total str_eqb Kelompok_Umur a view))
          (filter (fun a => inb a (map Kelompok_Umur view)) desired_age_order
           ++ unrecognized) /\
    StronglySorted str_lt unrecognized /\
    (forall a, In a unrecognized <->
               In a (map Kelompok_Umur view) /\ ~ In a desired_age_order).
Proof.
  destruct (df_umur_spark_spec view) as (S & N & Keys & _ & _).
  exists (filter (fun a => negb (inb a desired_age_order))
                 (map fst (df_umur_spark view))).
  split; [| split].
  - rewrite rows_df_umur. unfold categories_of. do 2 f_equal.
    apply filter_ext. intro a. apply eq_true_iff_eq.
    rewrite !inb_In. apply Keys.
  - apply StronglySorted_filter.
    apply (proj1 (StronglySorted_map _ _ fst str_lt (df_umur_spark view))).
    exact S.
  - intro a. rewrite filter_In, negb_true_iff, Keys.
    destruct (inb a desired_age_order) eqn:E.
    + apply inb_In in E. intuition discriminate.
    + split; [| tauto]. intros [I _]. split; [exact I |].
      intro D. apply inb_In in D. congruence.
Qed.

(** C9, as the claim has it, fails: the view shows the label
    "Tidak diketahui" before the label "Lainnya", and the age table
    lists "Lainnya" first. *)
Lemma by_age_group_not_first_seen :
  rows (df_umur (H := in_order) view_other_labels)
  = [ (lit "0-4", 1); (lit "25-49", 7); (lit "Lainnya", 2);
      (lit "Tidak diketahui", 3) ] /\
  by_age_group_spec view_other_labels
  = [ (lit "0-4", 1); (lit "25-49", 7); (lit "Tidak diketahui", 3);
      (lit "Lainnya", 2) ] /\
  rows (df_umur (H := in_order) view_other_labels)
  <> by_age_group_spec view_other_labels.
Proof.
  split; [vm_compute; reflexivity |].
  split; [vm_compute; reflexivity |].
  vm_compute. discriminate.
Qed.

(** ** Aggregates and insights *)

(** C3. For every year and every set of regions, the total of the
    filtered view equals the sum of the totals of its age table, and
    equals the sum of the totals of its gender table. *)
Theorem aggregation_consistency `{SparkExchange} (df_spark : list row)
  (tahun_pilih : Z) (kota_pilih : list str) :
  let view := filtered_spark df_spark tahun_pilih kota_pilih in
  total_kasus view = sum_Z (map snd (rows (df_umur view))) /\
  total_kasus view = sum_Z (map snd (rows (df_gender view))).
Proof.
  intro view. rewrite total_kasus_sum. split.
  - rewrite (sum_Z_perm _ _ (Permutation_map snd (rows_df_umur_perm view))).
    destruct (df_umur_spark_spec view) as (_ & _ & _ & Sum & _).
    symmetry. exact Sum.
  - unfold df_gender. rewrite rows_toPandas. unfold df_gender_spark.
    destruct (groupBy_sum_spec str_eqb str_eqb_eq Jenis_Kelamin view)
      as (_ & _ & Sum & _).
    symmetry. exact Sum.
Qed.

Lemma StronglySorted_middle (A : Type) (R : A -> A -> Prop) (pre post : list A)
  (x : A) :
  StronglySorted R (pre ++ x :: post) ->
  Forall (fun p => R p x) pre /\ Forall (R x) post.
Proof.
  induction pre as [| p pre IH]; simpl; intro S; inversion S as [| ? ? S' F]; subst.
  - split; [constructor | exact F].
  - destruct (IH S') as [Fp Fq]. split; [| exact Fq].
    constructor; [| exact Fp].
    rewrite Forall_forall in F. apply F, in_or_app. right. left. reflexivity.
Qed.

Lemma keys_nonempty (K : Type) (t : list (K * Z)) (k : K) :
  In k (map fst t) -> toPandas t <> [].
Proof.
  intros I E. apply toPandas_nil in E. subst t. exact I.
Qed.

Lemma df_umur_labels `{SparkExchange} (view : list row) :
  NoDup (map fst (df_umur view)).
Proof.
  unfold df_umur. destruct (negb (empty _)).
  - unfold sort_values_categorical.
    eapply Permutation_NoDup;
      [apply Permutation_map, Permutation_sym, sort_perm | apply labels_toPandas].
  - apply labels_toPandas.
Qed.

Lemma df_umur_nonempty `{SparkExchange} (view : list row) :
  view <> [] -> df_umur view <> [].
Proof.
  intros NE E.
  assert (R : rows (df_umur view) = []) by (rewrite E; reflexivity).
  pose proof (rows_df_umur_perm view) as P. rewrite R in P.
  apply Permutation_nil in P.
  destruct (df_umur_spark_spec view) as (_ & _ & Keys & _).
  destruct view as [| r view]; [congruence |].
  specialize (Keys (Kelompok_Umur r)). rewrite P in Keys.
  apply Keys. left. reflexivity.
Qed.

Lemma df_gender_nonempty `{SparkExchange} (view : list row) :
  view <> [] -> df_gender view <> [].
Proof.
  intros NE. destruct view as [| r view]; [congruence |].
  apply (keys_nonempty _ _ (Jenis_Kelamin r)).
  apply (groupBy_sum_spec str_eqb str_eqb_eq Jenis_Kelamin (r :: view)).
  left. reflexivity.
Qed.

Lemma df_trend_nonempty `{SparkExchange} (df_spark : list row) (tahun_pilih : Z)
  (kota_pilih : list str) :
  filtered_spark df_spark tahun_pilih kota_pilih <> [] ->
  df_trend df_spark kota_pilih <> [].
Proof.
  intro NE.
  destruct (filtered_spark df_spark tahun_pilih kota_pilih) as [| r view] eqn:E;
    [congruence |].
  assert (I : In r (filtered_spark df_spark tahun_pilih kota_pilih))
    by (rewrite E; left; reflexivity).
  apply filter_In in I. destruct I as [I C].
  apply andb_true_iff in C. destruct C as [_ C].
  apply (keys_nonempty _ _ (Tahun r)).
  apply (df_trend_spark_spec df_spark kota_pilih).
  apply in_map, filter_In. split; assumption.
Qed.

Lemma kelompok_dominan_spec `{SparkExchange} (view : list row) :
  view <> [] ->
  exists r, kelompok_dominan view = Some r /\ first_max (rows (df_umur view)) r.
Proof.
  intro NE.
  destruct (loc_idxmax (df_umur view) (df_umur_labels view)
              (df_umur_nonempty view NE)) as (i & r & I & L & F).
  exists r. split; [| exact F].
  unfold kelompok_dominan.
  destruct (df_umur view) eqn:E; [discriminate I |].
  simpl negb. cbv iota. rewrite I. exact L.
Qed.

Lemma gender_dom_spec `{SparkExchange} (view : list row) :
  view <> [] ->
  exists r, gender_dom view = Some r /\ first_max (rows (df_gender view)) r.
Proof.
  intro NE.
  destruct (loc_idxmax (df_gender view) (labels_toPandas _)
              (df_gender_nonempty view NE)) as (i & r & I & L & F).
  exists r. split; [| exact F]. unfold gender_dom. rewrite I. exact L.
Qed.

Lemma top_row_spec (trend : list (Z * Z)) :
  trend <> [] ->
  exists r, top_row (toPandas trend) = Some r /\ first_max trend r.
Proof.
  intro NE.
  assert (NE' : toPandas trend <> []) by (rewrite toPandas_nil; exact NE).
  destruct (loc_idxmax (toPandas trend) (labels_toPandas _) NE')
    as (i & r & I & L & F).
  rewrite rows_toPandas in F.
  exists r. split; [unfold top_row; rewrite I; exact L | exact F].
Qed.

Lemma rows_df_umur_in_display_order `{SparkExchange} (view : list row) :
  exists order,
    display_order view order /\
    rows (df_umur view)
    = map (fun a => (a, group_total str_eqb Kelompok_Umur a view)) order.
Proof.
  destruct (df_umur_spark_spec view) as (S & N & Keys & _ & _).
  exists (categories_of (map fst (df_umur_spark view))).
  split; [| apply rows_df_umur].
  exists (filter (fun a => negb (inb a desired_age_order))
                 (map fst (df_umur_spark view))).
  split; [| split].
  - unfold categories_of. f_equal.
    apply filter_ext. intro a. apply eq_true_iff_eq.
    rewrite !inb_In. apply Keys.
  - apply StronglySorted_filter.
    apply (proj1 (StronglySorted_map _ _ fst str_lt (df_umur_spark view))).
    exact S.
  - intro a. rewrite filter_In, negb_true_iff, Keys.
    destruct (inb a desired_age_order) eqn:E.
    + apply inb_In in E. intuition discriminate.
    + split; [| tauto]. intros [I _]. split; [exact I |].
      intro D. apply inb_In in D. congruence.
Qed.

Lemma map_eq_app_cons (A B : Type) (f : A -> B) (l : list A) (pre post : list B)
  (b : B) :
  map f l = pre ++ b :: post ->
  exists pre' a post',
    l = pre' ++ a :: post' /\ map f pre' = pre /\ f a = b /\ map f post' = post.
Proof.
  revert pre. induction l as [| x l IH]; intros pre E.
  - destruct pre; discriminate.
  - destruct pre as [| p pre]; simpl in E.
    + injection E as Ex El. exists [], x, l. auto.
    + injection E as Ex El. destruct (IH pre El) as (pre' & a & post' & -> & Ep & Ea & Eq).
      exists (x :: pre'), a, post'. simpl. rewrite Ex, Ep. auto.
Qed.

(** C10. Ties for the largest total go to the first row in the row
    order of the table. The age table is in display order (the
    buckets of the view in the enumerated order, then its other labels
    in ascending order), and the dominant age group is the first
    bucket of that order with the largest sum: every age group before
    it in display order has a strictly smaller sum, no age group after
    it has a larger one. The dominant gender is the first row with the
    largest total of the gender table as Spark returned it, and the
    peak year is the first such row of the trend series, which is the
    earliest tied year. For a view that is not empty all three
    derivations report such a row. *)
Theorem ties_report_first_row `{SparkExchange} (df_spark : list row)
  (tahun_pilih : Z) (kota_pilih : list str) :
  let view := filtered_spark df_spark tahun_pilih kota_pilih in
  let trend := df_trend df_spark kota_pilih in
  view <> [] ->
  (exists r, kelompok_dominan view = Some r /\
             first_max (rows (df_umur view)) r /\
             exists order pre post,
               display_order view order /\
               map fst (rows (df_umur view)) = order /\
               order = pre ++ fst r :: post /\
               snd r = group_total str_eqb Kelompok_Umur (fst r) view /\
               (forall b, In b pre ->
                          group_total str_eqb Kelompok_Umur b view < snd r) /\
               (forall b, In b post ->
                          group_total str_eqb Kelompok_Umur b view <= snd r)) /\
  (exists r, gender_dom view = Some r /\
             first_max (rows (df_gender view)) r) /\
  (exists r, top_row trend = Some r /\
             first_max (rows trend) r /\
             forall r', In r' (rows trend) -> snd r' = snd r -> fst r <= fst r').
Proof.
  intros view trend NE. split; [| split].
  - destruct (kelompok_dominan_spec view NE) as (r & E & M).
    exists r. split; [exact E |]. split; [exact M |].
    destruct (rows_df_umur_in_display_order view) as (order & D & R).
    destruct M as (pre & post & Er & Fp & Fq).
    rewrite R in Er. apply map_eq_app_cons in Er.
    destruct Er as (pre' & a & post' & Eo & Ep & Ea & Eq).
    exists order, pre', post'. subst r. simpl fst. simpl snd.
    split; [exact D |]. split; [| split; [exact Eo |]].
    + rewrite R, map_map. simpl. apply map_id.
    + split; [reflexivity |]. split; intros b Ib.
      * rewrite <- Ep in Fp. rewrite Forall_map, Forall_forall in Fp.
        apply (Fp b Ib).
      * rewrite <- Eq in Fq. rewrite Forall_map, Forall_forall in Fq.
        apply (Fq b Ib).
  - apply gender_dom_spec, NE.
  - assert (NT : df_trend_spark df_spark kota_pilih <> []).
    { rewrite <- toPandas_nil.
      apply (df_trend_nonempty df_spark tahun_pilih kota_pilih NE). }
    destruct (top_row_spec _ NT) as (r & T & F).
    exists r. unfold trend, df_trend. rewrite rows_toPandas.
    split; [exact T |]. split; [exact F |].
    destruct F as (pre & post & E & Fp & Fq).
    destruct (df_trend_spark_spec df_spark kota_pilih) as (S & _).
    rewrite E in S |- *. apply StronglySorted_middle in S. destruct S as [_ Sq].
    intros r' I' Tie. apply in_app_or in I'. destruct I' as [I' | [<- | I']].
    + rewrite Forall_forall in Fp. specialize (Fp r' I'). lia.
    + lia.
    + rewrite Forall_forall in Sq. specialize (Sq r' I'). simpl in Sq. lia.
Qed.

(** A view in which 5-14 and 15-19 tie: the Spark table lists 15-19
    first, the display order lists 5-14 first, and 5-14 is reported. *)
Lemma ties_report_first_row_witness :
  filtered_spark df_ties_display 2022 kota_bandung <> [] /\
  (exists r,
      kelompok_dominan (H := reversed)
        (filtered_spark df_ties_display 2022 kota_bandung) = Some r /\
      first_max
        (rows (df_umur (H := reversed)
                 (filtered_spark df_ties_display 2022 kota_bandung))) r /\
      exists order pre post,
        display_order (filtered_spark df_ties_display 2022 kota_bandung) order /\
        map fst (rows (df_umur (H := reversed)
                         (filtered_spark df_ties_display 2022 kota_bandung)))
        = order /\
        order = pre ++ fst r :: post /\
        snd r = group_total str_eqb Kelompok_Umur (fst r)
                  (filtered_spark df_ties_display 2022 kota_bandung) /\
        (forall b, In b pre ->
                   group_total str_eqb Kelompok_Umur b
                     (filtered_spark df_ties_display 2022 kota_bandung) < snd r) /\
        (forall b, In b post ->
                   group_total str_eqb Kelompok_Umur b
                     (filtered_spark df_ties_display 2022 kota_bandung) <= snd r)) /\
  df_umur_spark (H := reversed) (filtered_spark df_ties_display 2022 kota_bandung)
  = [(lit "15-19", 4); (lit "5-14", 4); (lit "Lainnya", 2)] /\
  rows (df_umur (H := reversed) (filtered_spark df_ties_display 2022 kota_bandung))
  = [(lit "5-14", 4); (lit "15-19", 4); (lit "Lainnya", 2)] /\
  kelompok_dominan (H := reversed) (filtered_spark df_ties_display 2022 kota_bandung)
  = Some (lit "5-14", 4) /\
  gender_dom (H := reversed) (filtered_spark df_ties_display 2022 kota_bandung)
  = Some (lit "PEREMPUAN", 5) /\
  top_row (df_trend (H := reversed) df_ties_display kota_bandung) = Some (2021, 10).
Proof.
  assert (NE : filtered_spark df_ties_display 2022 kota_bandung <> [])
    by (vm_compute; discriminate).
  split; [exact NE |].
  split; [exact (proj1 (ties_report_first_row (H := reversed)
                          df_ties_display 2022 kota_bandung NE)) |].
  repeat split; vm_compute; reflexivity.
Defined.

(** ** The shares of the dominant groups *)

Lemma pct_zero_total (part : Z) : pct part 0 = 0%Q.
Proof. reflexivity. Qed.

Lemma pct_range (part total : Z) :
  0 <= part <= total -> (0 <= pct part total <= 100)%Q.
Proof.
  intros [L U]. unfold pct. destruct (total =? 0) eqn:E.
  - split; discriminate.
  - apply Z.eqb_neq in E. destruct total as [| p | p]; try lia.
    unfold Qle, Qdiv, Qmult, Qinv, inject_Z. simpl. split; nia.
Qed.

Lemma sum_Z_nonneg (l : list Z) : Forall (fun x => 0 <= x) l -> 0 <= sum_Z l.
Proof. induction 1; simpl; lia. Qed.

Lemma sum_Z_bound (l : list Z) (x : Z) :
  Forall (fun x => 0 <= x) l -> In x l -> 0 <= x <= sum_Z l.
Proof.
  induction 1 as [| y l Hy F IH]; simpl; [contradiction |].
  pose proof (sum_Z_nonneg l F). intros [<- | I]; [lia |].
  specialize (IH I). lia.
Qed.

Lemma group_total_nonneg (K : Type) (eqb : K -> K -> bool) (key : row -> K)
  (k : K) (view : list row) :
  Forall (fun r => 0 <= Jumlah_Kasus r) view ->
  0 <= group_total eqb key k view.
Proof.
  intro F. unfold group_total. apply sum_Z_nonneg.
  apply Forall_map. rewrite Forall_forall in *.
  intros r I. apply filter_In in I. apply F, I.
Qed.

Lemma first_max_In (K : Type) (t : list (K * Z)) (r : K * Z) :
  first_max t r -> In r t.
Proof.
  intros (pre & post & -> & _). apply in_or_app. right. left. reflexivity.
Qed.

(** A row of a table of group totals holds between nothing and the
    whole. *)
Lemma group_row_bound (K : Type) (t : list (K * Z)) (f : K -> Z) (total : Z)
  (r : K * Z) :
  (forall k v, In (k, v) t -> v = f k) ->
  (forall k, 0 <= f k) ->
  sum_Z (map snd t) = total ->
  In r t -> 0 <= snd r <= total.
Proof.
  intros Tot Pos Sum I. rewrite <- Sum. apply sum_Z_bound.
  - apply Forall_map. rewrite Forall_forall. intros [k v] Ikv. simpl.
    rewrite (Tot k v Ikv). apply Pos.
  - apply in_map. exact I.
Qed.

Lemma groupBy_sum_nil `{SparkExchange} (K : Type) (eqb : K -> K -> bool)
  (key : row -> K) :
  groupBy_sum eqb key [] = [].
Proof.
  unfold groupBy_sum. apply Permutation_nil, Permutation_sym, exchange_perm.
Qed.

Lemma kelompok_dominan_bound `{SparkExchange} (view : list row) (r : str * Z) :
  Forall (fun r => 0 <= Jumlah_Kasus r) view ->
  kelompok_dominan view = Some r -> 0 <= snd r <= total_kasus view.
Proof.
  intros F E. destruct view as [| r0 view].
  - unfold kelompok_dominan, df_umur, df_umur_spark in E.
    rewrite groupBy_sum_nil in E. discriminate.
  - destruct (kelompok_dominan_spec (r0 :: view)) as (r' & E' & M);
      [discriminate |].
    rewrite E in E'. injection E' as <-. apply first_max_In in M.
    destruct (df_umur_spark_spec (r0 :: view)) as (_ & _ & _ & Sum & Tot).
    apply (group_row_bound _ (df_umur_spark (r0 :: view))
             (fun k => group_total str_eqb Kelompok_Umur k (r0 :: view))).
    + exact Tot.
    + intro k. apply group_total_nonneg, F.
    + rewrite total_kasus_sum. exact Sum.
    + eapply Permutation_in; [apply rows_df_umur_perm | exact M].
Qed.

Lemma gender_dom_bound `{SparkExchange} (view : list row) (r : str * Z) :
  Forall (fun r => 0 <= Jumlah_Kasus r) view ->
  gender_dom view = Some r -> 0 <= snd r <= total_kasus view.
Proof.
  intros F E. destruct view as [| r0 view].
  - unfold gender_dom, df_gender, df_gender_spark in E.
    rewrite groupBy_sum_nil in E. discriminate.
  - destruct (gender_dom_spec (r0 :: view)) as (r' & E' & M);
      [discriminate |].
    rewrite E in E'. injection E' as <-. apply first_max_In in M.
    unfold df_gender in M. rewrite rows_toPandas in M.
    destruct (groupBy_sum_spec str_eqb str_eqb_eq Jenis_Kelamin (r0 :: view))
      as (_ & _ & Sum & Tot).
    apply (group_row_bound _ (df_gender_spark (r0 :: view))
             (fun k => group_total str_eqb Jenis_Kelamin k (r0 :: view))).
    + exact Tot.
    + intro k. apply group_total_nonneg, F.
    + rewrite total_kasus_sum. exact Sum.
    + exact M.
Qed.

(** C7. For a view whose case counts are not negative, the share of
    the dominant age group and the share of the dominant gender lie
    between 0 and 100, and both are 0 when the total is 0; this holds
    for the shares of the two metrics and for the shares that the
    narrative prints. For a view that is not empty both shares are
    computed. *)
Theorem dominant_share_bounds `{SparkExchange} (view : list row) :
  Forall (fun r => 0 <= Jumlah_Kasus r) view ->
  (forall name t q,
      insight_umur view = Some (name, t, q) \/
      insight_gender view = Some (name, t, q) ->
      (0 <= q <= 100)%Q /\ (total_kasus view = 0 -> q = 0%Q)) /\
  (0 <= age_pct_safe view <= 100)%Q /\
  (0 <= gender_pct_safe view <= 100)%Q /\
  (total_kasus view = 0 ->
   age_pct_safe view = 0%Q /\ gender_pct_safe view = 0%Q) /\
  (view <> [] -> insight_umur view <> None /\ insight_gender view <> None).
Proof.
  intro F.
  assert (A : forall name t q,
             insight_umur view = Some (name, t, q) ->
             (0 <= q <= 100)%Q /\ (total_kasus view = 0 -> q = 0%Q)).
  { intros name t q E. unfold insight_umur in E.
    destruct (kelompok_dominan view) as [r |] eqn:D; [| discriminate].
    injection E as <- <- <-. split.
    - apply pct_range, kelompok_dominan_bound; assumption.
    - intros ->. apply pct_zero_total. }
  assert (G : forall name t q,
             insight_gender view = Some (name, t, q) ->
             (0 <= q <= 100)%Q /\ (total_kasus view = 0 -> q = 0%Q)).
  { intros name t q E. unfold insight_gender in E.
    destruct (gender_dom view) as [r |] eqn:D; [| discriminate].
    injection E as <- <- <-. split.
    - apply pct_range, gender_dom_bound; assumption.
    - intros ->. apply pct_zero_total. }
  assert (Z0 : (0 <= 0 <= 100)%Q) by (split; discriminate).
  split; [intros name t q [E | E]; eauto |].
  split; [| split; [| split]].
  - unfold age_pct_safe.
    destruct (insight_umur view) as [[[an at_] aq] |] eqn:Ea; [| exact Z0].
    apply (A an at_ aq eq_refl).
  - unfold gender_pct_safe.
    destruct (insight_gender view) as [[[gn gt] gq] |] eqn:Eg; [| exact Z0].
    apply (G gn gt gq eq_refl).
  - intro T. unfold age_pct_safe, gender_pct_safe. split.
    + destruct (insight_umur view) as [[[an at_] aq] |] eqn:Ea; [| reflexivity].
      apply (A an at_ aq eq_refl), T.
    + destruct (insight_gender view) as [[[gn gt] gq] |] eqn:Eg; [| reflexivity].
      apply (G gn gt gq eq_refl), T.
  - intro NE. split; intro E.
    + destruct (kelompok_dominan_spec view NE) as (r & Er & _).
      unfold insight_umur in E. rewrite Er in E. discriminate.
    + destruct (gender_dom_spec view NE) as (r & Er & _).
      unfold insight_gender in E. rewrite Er in E. discriminate.
Qed.

Lemma dominant_share_bounds_witness :
  Forall (fun r => 0 <= Jumlah_Kasus r) (filtered_spark df_example 2022 kota_bandung) /\
  (0 <= gender_pct_safe (H := in_order) (filtered_spark df_example 2022 kota_bandung)
   <= 100)%Q /\
  insight_gender (H := in_order) (filtered_spark df_example 2022 kota_bandung)
  = Some (lit "LAKI-LAKI", 10, (1000 # 15)%Q).
Proof.
  assert (F : Forall (fun r => 0 <= Jumlah_Kasus r)
                (filtered_spark df_example 2022 kota_bandung)).
  { vm_compute. repeat constructor; discriminate. }
  split; [exact F |].
  split; [| vm_compute; reflexivity].
  exact (proj1 (proj2 (proj2 (dominant_share_bounds (H := in_order)
                                (filtered_spark df_example 2022 kota_bandung) F)))).
Defined.

(** ** The peak year *)

Lemma sort_values_Tahun_sorted (trend : list (Z * Z)) :
  StronglySorted (fun p q => fst p < fst q) trend ->
  sort_values_Tahun (toPandas trend) = toPandas trend.
Proof.
  intro S. apply sort_sorted_id.
  apply (proj2 (StronglySorted_map _ _ snd
                  (fun p q => (fst p <=? fst q) = true) (toPandas trend))).
  fold (rows (toPandas trend)). rewrite rows_toPandas.
  eapply StronglySorted_impl_in; [| exact S].
  intros x y _ _ L. cbv beta in L. apply Z.leb_le. lia.
Qed.

Lemma years_before (pre post : list (Z * Z)) (y t : Z) :
  StronglySorted (fun p q => fst p < fst q) (pre ++ (y, t) :: post) ->
  ~ In y (map fst pre).
Proof.
  intros S I. apply StronglySorted_middle in S. destruct S as [Sp _].
  apply in_map_iff in I. destruct I as (p & E & I).
  rewrite Forall_forall in Sp. specialize (Sp p I). simpl in Sp. lia.
Qed.

Lemma puncak_tahun_eval (pre post : list (Z * Z)) (y t : Z) :
  StronglySorted (fun p q => fst p < fst q) (pre ++ (y, t) :: post) ->
  top_row (toPandas (pre ++ (y, t) :: post)) = Some (y, t) ->
  puncak_tahun (toPandas (pre ++ (y, t) :: post)) = Some (y, t, yoy_of pre t).
Proof.
  intros S T. unfold puncak_tahun. rewrite T. cbv zeta.
  rewrite (sort_values_Tahun_sorted _ S), rows_toPandas. simpl fst. simpl snd.
  assert (Ex : existsb (Z.eqb y) (map fst (pre ++ (y, t) :: post)) = true).
  { apply existsb_exists. exists y. split; [| apply Z.eqb_refl].
    rewrite map_app. apply in_or_app. right. left. reflexivity. }
  rewrite Ex.
  assert (Ix : index_of Z.eqb y (map fst (pre ++ (y, t) :: post))
               = Some (List.length pre)).
  { rewrite map_app. simpl.
    rewrite (index_of_middle Z.eqb Z.eqb_eq) by (eapply years_before; exact S).
    rewrite length_map. reflexivity. }
  rewrite Ix. unfold yoy_of.
  destruct pre as [| p0 pre0] using rev_ind; [reflexivity |].
  clear IHpre0. rewrite rev_app_distr. simpl rev. simpl app.
  destruct p0 as [y' prev].
  rewrite length_app. simpl List.length.
  replace (List.length pre0 + 1 - 1)%nat with (List.length pre0) by lia.
  replace (Nat.ltb 0 (List.length pre0 + 1)) with true
    by (symmetry; apply Nat.ltb_lt; lia).
  assert (Nth : nth (List.length pre0)
                  (map snd ((pre0 ++ [(y', prev)]) ++ (y, t) :: post)) 0 = prev).
  { rewrite <- app_assoc, map_app.
    rewrite app_nth2 by (rewrite length_map; lia).
    rewrite length_map, Nat.sub_diag. reflexivity. }
  rewrite Nth. simpl andb. destruct (prev =? 0); reflexivity.
Qed.

Lemma split_at_year (l : list (Z * Z)) :
  forall a b a' b' y t t',
    NoDup (map fst l) ->
    l = a ++ (y, t) :: b -> l = a' ++ (y, t') :: b' ->
    a = a' /\ t = t' /\ b = b'.
Proof.
  induction l as [| p l IH]; intros a b a' b' y t t' N E E'.
  - destruct a; discriminate.
  - inversion N as [| ? ? Hn N']; subst.
    destruct a as [| q a], a' as [| q' a']; simpl in *.
    + injection E as -> ->. injection E' as -> ->. auto.
    + injection E as -> ->. injection E' as <- ->. exfalso. apply Hn.
      rewrite map_app. apply in_or_app. right. left. reflexivity.
    + injection E' as -> ->. injection E as <- ->. exfalso. apply Hn.
      rewrite map_app. apply in_or_app. right. left. reflexivity.
    + injection E as <- ->. injection E' as <- E'.
      destruct (IH a b a' b' y t t' N' eq_refl E') as (-> & -> & ->). auto.
Qed.

Lemma preceding_last (pre post : list (Z * Z)) (y t : Z) (e e' : Z * Z) :
  NoDup (map fst ((pre ++ [e]) ++ (y, t) :: post)) ->
  preceding ((pre ++ [e]) ++ (y, t) :: post) y e' -> e' = e.
Proof.
  intros N (pre2 & t2 & post2 & E).
  change (pre2 ++ e' :: (y, t2) :: post2)
    with (pre2 ++ [e'] ++ (y, t2) :: post2) in E.
  rewrite app_assoc in E.
  destruct (split_at_year _ _ _ _ _ _ _ _ N eq_refl E) as (Ea & _ & _).
  apply app_inj_tail in Ea. symmetry. apply Ea.
Qed.

Lemma preceding_none (post : list (Z * Z)) (y t : Z) (e : Z * Z) :
  NoDup (map fst ((y, t) :: post)) -> ~ preceding ((y, t) :: post) y e.
Proof.
  intros N (pre2 & t2 & post2 & E).
  change (pre2 ++ e :: (y, t2) :: post2)
    with (pre2 ++ [e] ++ (y, t2) :: post2) in E.
  rewrite app_assoc in E.
  destruct (split_at_year _ [] post _ _ _ _ _ N eq_refl E) as (Ea & _ & _).
  destruct pre2; discriminate.
Qed.

(** C5, as the code has it. For a trend series that is not empty, the
    peak is the first entry with the largest total, and its
    year-over-year text is the marker "Tidak ada data sebelumnya"
    exactly when the peak year is the earliest year of the series or
    the entry before it has the total 0; when the entry before it has
    another total, the text is the percentage change against that
    total. *)
Theorem peak_year_yoy `{SparkExchange} (df_spark : list row) (kota_pilih : list str) :
  let trend := df_trend_spark df_spark kota_pilih in
  trend <> [] ->
  exists y t txt,
    puncak_tahun (df_trend df_spark kota_pilih) = Some (y, t, txt) /\
    first_max trend (y, t) /\
    (txt = tidak_ada_data_sebelumnya <->
     earliest y trend \/ exists y', preceding trend y (y', 0)) /\
    (~ earliest y trend -> exists e, preceding trend y e) /\
    (forall y' prev,
        preceding trend y (y', prev) -> prev <> 0 ->
        txt = naik_dari (inject_Z (t - prev) / inject_Z prev * 100)%Q prev).
Proof.
  intros trend NE.
  destruct (top_row_spec trend NE) as ([y t] & T & F).
  destruct (df_trend_spark_spec df_spark kota_pilih) as (S & N & _).
  fold trend in S, N.
  destruct F as (pre & post & E & Fp & Fq).
  exists y, t, (yoy_of pre t).
  assert (P : puncak_tahun (df_trend df_spark kota_pilih)
              = Some (y, t, yoy_of pre t)).
  { unfold df_trend. fold trend. revert T S. rewrite E. intros T S.
    apply puncak_tahun_eval; assumption. }
  split; [exact P |].
  split; [exists pre, post; auto |].
  clear P T. revert S N. rewrite E. clear E. intros S N.
  destruct pre as [| [y' p] pre0 _] using rev_ind.
  - assert (Ea : earliest y ((y, t) :: post)).
    { intros r [<- | I]; [simpl; lia |].
      inversion S as [| ? ? _ Fs]; subst. rewrite Forall_forall in Fs.
      specialize (Fs r I). simpl in Fs. lia. }
    simpl app. unfold yoy_of. simpl rev. cbv iota.
    split; [split; auto |].
    split; [intro Ne; contradiction |].
    intros y' prev Pr. exfalso. exact (preceding_none _ _ _ _ N Pr).
  - assert (Pr : preceding ((pre0 ++ [(y', p)]) ++ (y, t) :: post) y (y', p)).
    { exists pre0, t, post. rewrite <- app_assoc. reflexivity. }
    assert (Lt : y' < y).
    { apply StronglySorted_middle in S. destruct S as [Sp _].
      rewrite Forall_forall in Sp.
      apply (Sp (y', p)). apply in_or_app. right. left. reflexivity. }
    assert (Ne : ~ earliest y ((pre0 ++ [(y', p)]) ++ (y, t) :: post)).
    { intro Ea. specialize (Ea (y', p)). simpl in Ea.
      assert (y <= y'); [| lia]. apply Ea.
      apply in_or_app. left. apply in_or_app. right. left. reflexivity. }
    unfold yoy_of. rewrite rev_app_distr. simpl rev. simpl app.
    split; [| split].
    + destruct (p =? 0) eqn:C.
      * apply Z.eqb_eq in C. subst p.
        split; [intros _; right; exists y'; exact Pr | reflexivity].
      * apply Z.eqb_neq in C. split; [discriminate |].
        intros [Ea | (y'' & Pr')]; [contradiction |].
        apply (preceding_last _ _ _ _ _ _ N) in Pr'. congruence.
    + intros _. exists (y', p). exact Pr.
    + intros y'' prev Pr' NZ.
      apply (preceding_last _ _ _ _ _ _ N) in Pr'. injection Pr' as -> ->.
      apply Z.eqb_neq in NZ. rewrite NZ. reflexivity.
Qed.

Lemma peak_year_yoy_witness :
  df_trend_spark (H := in_order) df_example kota_bandung <> [] /\
  (exists y t txt,
      puncak_tahun (df_trend (H := in_order) df_example kota_bandung)
      = Some (y, t, txt) /\
      first_max (df_trend_spark (H := in_order) df_example kota_bandung) (y, t)) /\
  puncak_tahun (df_trend (H := in_order) df_example kota_bandung)
  = Some (2022, 15, naik_dari (700 # 8)%Q 8).
Proof.
  assert (NE : df_trend_spark (H := in_order) df_example kota_bandung <> [])
    by (vm_compute; discriminate).
  split; [exact NE |]. split; [| vm_compute; reflexivity].
  destruct (peak_year_yoy (H := in_order) df_example kota_bandung NE)
    as (y & t & txt & P & M & _).
  exists y, t, txt. split; assumption.
Defined.

(** C5, as the claim has it, fails: the series of Kota Banjar peaks
    in 2021, which is not its earliest year, and the text is the
    marker all the same, because the total of 2020 is 0. *)
Lemma peak_year_yoy_not_only_earliest :
  df_trend_spark (H := in_order) df_zero_year kota_banjar = [(2020, 0); (2021, 5)] /\
  puncak_tahun (df_trend (H := in_order) df_zero_year kota_banjar)
  = Some (2021, 5, tidak_ada_data_sebelumnya) /\
  ~ earliest 2021 (df_trend_spark (H := in_order) df_zero_year kota_banjar).
Proof.
  split; [vm_compute; reflexivity |].
  split; [vm_compute; reflexivity |].
  intro E. specialize (E (2020, 0)).
  assert (2021 <= 2020); [| lia].
  apply E. vm_compute. left. reflexivity.
Qed.

(** ** The script *)

(** The ways a run can go. *)
Lemma run_cases `{SparkExchange} (env : environment) (tahun_pilih : Z)
  (kota_pilih : list str) (format_choice : format) :
  match init_spark env with
  | Raise e =>
      run env tahun_pilih kota_pilih format_choice
      = (Halted (sys_exit 1),
         [ Draw (st_error "Spark gagal dijalankan. Periksa instalasi Java dan Spark.");
           Draw (st_exception e) ])
  | Ok _ =>
      match load_data env with
      | Raise e =>
          run env tahun_pilih kota_pilih format_choice
          = (Halted (sys_exit 1), log_load_failure e)
      | Ok df_spark =>
          let view := filtered_spark df_spark tahun_pilih kota_pilih in
          let trend := df_trend_or_empty env df_spark kota_pilih in
          match view with
          | [] => run env tahun_pilih kota_pilih format_choice = (Halted st_stop, log_no_data)
          | _ :: _ =>
              exists log,
                run env tahun_pilih kota_pilih format_choice
                = (match sum_total_kasus env, sum_umur env, sum_gender env with
                   | Raise e, _, _ => Halted (uncaught e)
                   | Ok _, Raise e, _ => Halted (uncaught e)
                   | Ok _, Ok _, Raise e => Halted (uncaught e)
                   | Ok _, Ok _, Ok _ =>
                       Done {| r_total_kasus := total_kasus view;
                               r_jumlah_wilayah := jumlah_wilayah view;
                               r_umur := rows (df_umur view);
                               r_gender := rows (df_gender view);
                               r_trend := df_trend_spark df_spark kota_pilih;
                               r_df_trend := rows trend;
                               r_insight_umur := insight_umur view;
                               r_insight_gender := insight_gender view;
                               r_puncak := puncak_tahun trend |}
                   end, log)
          end
      end
  end.
Proof.
  unfold run, dashboard, sidebar_download, sum_job, bind, try_except, ret, draw,
    run_job, halt_with.
  destruct (init_spark env) as [u | e]; [| reflexivity].
  destruct (load_data env) as [df_spark | e]; [| reflexivity].
  cbv zeta.
  destruct (filtered_spark df_spark tahun_pilih kota_pilih) as [| r view] eqn:E;
    [reflexivity |].
  simpl List.length. simpl Nat.eqb. cbv iota.
  destruct format_choice, (to_excel env), (json_dumps env);
    destruct (sum_total_kasus env), (sum_umur env), (sum_gender env);
    try (eexists; reflexivity);
    destruct (empty (df_trend_or_empty env df_spark kota_pilih));
    destruct (insight_umur (r :: view));
    destruct (insight_gender (r :: view));
    destruct (puncak_tahun (df_trend_or_empty env df_spark kota_pilih));
    eexists; reflexivity.
Qed.

Lemma run_done `{SparkExchange} (env : environment) (tahun_pilih : Z)
  (kota_pilih : list str) (format_choice : format) (r : report)
  (log : list event) :
  run env tahun_pilih kota_pilih format_choice = (Done r, log) ->
  exists df_spark,
    load_data env = Ok df_spark /\
    filtered_spark df_spark tahun_pilih kota_pilih <> [] /\
    r_trend r = df_trend_spark df_spark kota_pilih /\
    r_puncak r = puncak_tahun (df_trend_or_empty env df_spark kota_pilih).
Proof.
  intro E. pose proof (run_cases env tahun_pilih kota_pilih format_choice) as C.
  destruct (init_spark env) as [u | e]; [| congruence].
  destruct (load_data env) as [df_spark | e]; [| congruence].
  exists df_spark. split; [reflexivity |]. cbv zeta in C.
  destruct (filtered_spark df_spark tahun_pilih kota_pilih) as [| r0 view];
    [congruence |].
  split; [discriminate |].
  destruct C as (log' & C). rewrite C in E.
  destruct (sum_total_kasus env), (sum_umur env), (sum_gender env);
    try discriminate E.
  injection E as <- _. simpl. split; reflexivity.
Qed.

(** C2. The trend series of a run is the trend query of the canonical
    table and the selected regions, a query that takes no year: two
    runs over the same data and the same regions that differ in the
    selected year report the same series of (year, total) pairs, and
    the same peak. *)
Theorem trend_ignores_year `{SparkExchange} (env : environment)
  (kota_pilih : list str) (tahun1 tahun2 : Z) (format1 format2 : format)
  (r1 r2 : report) (log1 log2 : list event) :
  run env tahun1 kota_pilih format1 = (Done r1, log1) ->
  run env tahun2 kota_pilih format2 = (Done r2, log2) ->
  r_trend r1 = r_trend r2 /\
  r_puncak r1 = r_puncak r2 /\
  exists df_spark,
    load_data env = Ok df_spark /\
    r_trend r1 = df_trend_spark df_spark kota_pilih.
Proof.
  intros E1 E2.
  destruct (run_done _ _ _ _ _ _ E1) as (df1 & L1 & _ & T1 & P1).
  destruct (run_done _ _ _ _ _ _ E2) as (df2 & L2 & _ & T2 & P2).
  assert (df1 = df2) as <- by congruence.
  split; [congruence |]. split; [congruence |].
  exists df1. split; assumption.
Qed.

Lemma trend_ignores_year_witness :
  exists r1 r2 log1 log2,
    run (H := in_order) env_example 2022 kota_bandung CSV = (Done r1, log1) /\
    run (H := in_order) env_example 2021 kota_bandung JSON = (Done r2, log2) /\
    r_trend r1 = r_trend r2 /\
    r_trend r1 = [(2021, 8); (2022, 15)] /\
    r_total_kasus r1 = 15 /\ r_total_kasus r2 = 8.
Proof.
  destruct (run (H := in_order) env_example 2022 kota_bandung CSV)
    as [o1 log1] eqn:E1.
  destruct (run (H := in_order) env_example 2021 kota_bandung JSON)
    as [o2 log2] eqn:E2.
  destruct o1 as [r1 | h1]; [| vm_compute in E1; discriminate].
  destruct o2 as [r2 | h2]; [| vm_compute in E2; discriminate].
  exists r1, r2, log1, log2.
  split; [reflexivity |]. split; [reflexivity |].
  split; [exact (proj1 (trend_ignores_year (H := in_order) env_example
                          kota_bandung 2022 2021 CSV JSON r1 r2 log1 log2 E1 E2)) |].
  vm_compute in E1. vm_compute in E2.
  injection E1 as <- _. injection E2 as <- _.
  repeat split.
Defined.

Lemma filtered_spark_no_region (df_spark : list row) (tahun_pilih : Z) :
  filtered_spark df_spark tahun_pilih [] = [].
Proof.
  unfold filtered_spark. induction df_spark as [| r df IH]; simpl.
  - reflexivity.
  - rewrite andb_false_r. exact IH.
Qed.

(** C6. For every year, the filter with no region yields the empty
    view, which is a value and not an error; and a run whose filtered
    view is empty draws the "no data" warning and stops: its events
    are the two sidebar queries, the count of the view and the
    warning, with no aggregation job among them. *)
Theorem empty_view_stops `{SparkExchange} (env : environment)
  (df_spark : list row) (tahun_pilih : Z) (kota_pilih : list str)
  (format_choice : format) :
  init_spark env = Ok tt ->
  load_data env = Ok df_spark ->
  filtered_spark df_spark tahun_pilih [] = [] /\
  run env tahun_pilih [] format_choice = (Halted st_stop, log_no_data) /\
  (filtered_spark df_spark tahun_pilih kota_pilih = [] ->
   run env tahun_pilih kota_pilih format_choice = (Halted st_stop, log_no_data)) /\
  (forall j, In (Job j) log_no_data -> aggregation_job j = false).
Proof.
  intros I L.
  pose proof (filtered_spark_no_region df_spark tahun_pilih) as E0.
  assert (Stop : forall kota,
             filtered_spark df_spark tahun_pilih kota = [] ->
             run env tahun_pilih kota format_choice = (Halted st_stop, log_no_data)).
  { intros kota E. pose proof (run_cases env tahun_pilih kota format_choice) as C.
    rewrite I, L in C. cbv zeta in C. rewrite E in C. exact C. }
  split; [exact E0 |]. split; [apply Stop, E0 |]. split; [apply Stop |].
  intros j [X | [X | [X | [X | []]]]]; try discriminate;
    injection X as <-; reflexivity.
Qed.

Lemma empty_view_stops_witness :
  init_spark env_example = Ok tt /\
  load_data env_example = Ok df_example /\
  run (H := in_order) env_example 2022 [] CSV = (Halted st_stop, log_no_data) /\
  run (H := in_order) env_example 2019 kota_bandung CSV
  = (Halted st_stop, log_no_data).
Proof.
  assert (I : init_spark env_example = Ok tt) by reflexivity.
  assert (L : load_data env_example = Ok df_example) by (vm_compute; reflexivity).
  pose proof (empty_view_stops (H := in_order) env_example df_example 2019
                kota_bandung CSV I L) as (_ & _ & S & _).
  pose proof (empty_view_stops (H := in_order) env_example df_example 2022
                kota_bandung CSV I L) as (_ & S0 & _).
  split; [exact I |]. split; [exact L |]. split; [exact S0 |].
  apply S. vm_compute. reflexivity.
Defined.

(** C8. The loader raises the file-not-found error when the CSV path
    does not exist, and passes on the error of the read when the
    reader raises one; and whatever error the loader raises, the run
    shows it to the user (the error box and the exception) and exits
    with status 1, before any query and before any part of the
    dashboard is drawn. *)
Theorem load_failure_is_fatal `{SparkExchange} (env : environment)
  (tahun_pilih : Z) (kota_pilih : list str) (format_choice : format) :
  init_spark env = Ok tt ->
  (path_exists env = false ->
   load_data env = Raise (FileNotFoundError "File CSV tidak ditemukan.")) /\
  (forall e, path_exists env = true -> read_csv env = Raise e ->
             load_data env = Raise e) /\
  (forall e, load_data env = Raise e ->
             run env tahun_pilih kota_pilih format_choice
             = (Halted (sys_exit 1),
                [ Draw (st_error "Gagal memuat data."); Draw (st_exception e) ])).
Proof.
  intro I. split; [| split].
  - intro P. unfold load_data. rewrite P. reflexivity.
  - intros e P R. unfold load_data. rewrite P, R. reflexivity.
  - intros e L. pose proof (run_cases env tahun_pilih kota_pilih format_choice) as C.
    rewrite I, L in C. exact C.
Qed.

Lemma load_failure_is_fatal_witness :
  init_spark env_missing = Ok tt /\
  path_exists env_missing = false /\
  run (H := in_order) env_missing 2022 kota_bandung CSV
  = (Halted (sys_exit 1),
     [ Draw (st_error "Gagal memuat data.");
       Draw (st_exception (FileNotFoundError "File CSV tidak ditemukan.")) ]).
Proof.
  assert (I : init_spark env_missing = Ok tt) by reflexivity.
  assert (P : path_exists env_missing = false) by reflexivity.
  pose proof (load_failure_is_fatal (H := in_order) env_missing 2022 kota_bandung
                CSV I)
    as (Missing & _ & Fatal).
  split; [exact I |]. split; [exact P |].
  apply Fatal, Missing, P.
Defined.

(** * Further properties *)

(** ** The label normaliser *)

Lemma ltrim_fixed (t : str) : hd_error t <> Some space -> ltrim t = t.
Proof.
  destruct t as [| c t]; simpl; [reflexivity |]. intro H.
  destruct (N.eqb c space) eqn:C; [| reflexivity].
  apply N.eqb_eq in C. subst. congruence.
Qed.

Lemma trim_fixed (t : str) :
  hd_error t <> Some space -> hd_error (rev t) <> Some space -> trim t = t.
Proof.
  intros H1 H2. unfold trim, rtrim.
  rewrite (ltrim_fixed t H1), (ltrim_fixed (rev t) H2). apply rev_involutive.
Qed.

Lemma trim_trim (s : str) : trim (trim s) = trim s.
Proof.
  destruct (trim_stripped s) as (_ & H1 & H2). apply trim_fixed; assumption.
Qed.

Lemma ltrim_spaces (l : str) : Forall (eq space) l -> ltrim l = [].
Proof.
  induction 1 as [| c l <- F IH]; [reflexivity |].
  exact IH.
Qed.

Lemma ltrim_app (s r : str) :
  ltrim (s ++ r) = match ltrim s with
                   | [] => ltrim r
                   | _ :: _ => ltrim s ++ r
                   end.
Proof.
  induction s as [| c s IH]; simpl; [destruct (ltrim r); reflexivity |].
  destruct (N.eqb c space); [exact IH | reflexivity].
Qed.

Lemma rtrim_app_spaces (s r : str) :
  Forall (eq space) r -> rtrim (s ++ r) = rtrim s.
Proof.
  intro F. unfold rtrim. rewrite rev_app_distr, ltrim_app.
  rewrite (ltrim_spaces (rev r)) by (apply Forall_rev; exact F).
  reflexivity.
Qed.

Lemma trim_padding (l s r : str) :
  Forall (eq space) l -> Forall (eq space) r -> trim (l ++ s ++ r) = trim s.
Proof.
  intros Fl Fr. unfold trim.
  rewrite ltrim_app, (ltrim_spaces l Fl), ltrim_app.
  destruct (ltrim s) as [| c u] eqn:E.
  - rewrite (ltrim_spaces r Fr). reflexivity.
  - apply rtrim_app_spaces. exact Fr.
Qed.

Lemma normalised_label_fixed (raw : str) :
  Kelompok_Umur_when (Kelompok_Umur_when raw) = Kelompok_Umur_when raw.
Proof.
  remember (Kelompok_Umur_when raw) as out eqn:O.
  unfold Kelompok_Umur_when in O.
  destruct (rlike (trim raw) re_ge50) eqn:E1; [subst out; vm_compute; reflexivity |].
  destruct (rlike (trim raw) re_0_4) eqn:E2; [subst out; vm_compute; reflexivity |].
  destruct (rlike (trim raw) re_5_14) eqn:E3; [subst out; vm_compute; reflexivity |].
  destruct (rlike (trim raw) re_15_19) eqn:E4; [subst out; vm_compute; reflexivity |].
  destruct (rlike (trim raw) re_20_24) eqn:E5; [subst out; vm_compute; reflexivity |].
  destruct (rlike (trim raw) re_25_49) eqn:E6; [subst out; vm_compute; reflexivity |].
  subst out. unfold Kelompok_Umur_when.
  rewrite trim_trim, E1, E2, E3, E4, E5, E6. reflexivity.
Qed.

(** X1. Normalising a label a second time changes nothing: the six
    bucket labels and every trimmed label that no pattern matches are
    fixed points of the normaliser; and trimming a label beforehand
    does not change its result either. *)
Theorem normalizer_idempotent (raw : str) :
  Kelompok_Umur_when (Kelompok_Umur_when raw) = Kelompok_Umur_when raw /\
  Kelompok_Umur_when (trim raw) = Kelompok_Umur_when raw.
Proof.
  split; [apply normalised_label_fixed |].
  unfold Kelompok_Umur_when. rewrite trim_trim. reflexivity.
Qed.

(** X2. Spaces around a label do not matter: a label padded with any
    number of leading and trailing spaces is normalised like the
    label itself. *)
Theorem normalizer_ignores_padding (l s r : str) :
  Forall (eq space) l -> Forall (eq space) r ->
  Kelompok_Umur_when (l ++ s ++ r) = Kelompok_Umur_when s.
Proof.
  intros Fl Fr. unfold Kelompok_Umur_when.
  rewrite (trim_padding l s r Fl Fr). reflexivity.
Qed.

Lemma normalizer_ignores_padding_witness :
  Kelompok_Umur_when (lit "   " ++ lit "15 - 19" ++ lit " ")
  = Kelompok_Umur_when (lit "15 - 19").
Proof.
  apply normalizer_ignores_padding; repeat constructor.
Defined.

(** X3. The result of the normaliser never starts or ends with a
    space. *)
Theorem normalizer_result_stripped (raw : str) :
  hd_error (Kelompok_Umur_when raw) <> Some space /\
  hd_error (rev (Kelompok_Umur_when raw)) <> Some space.
Proof.
  unfold Kelompok_Umur_when.
  repeat match goal with
         | |- context [rlike (trim raw) ?r] =>
             destruct (rlike (trim raw) r); [split; vm_compute; discriminate |]
         end.
  apply trim_stripped.
Qed.

Ltac split_on_char c :=
  repeat match goal with
         | |- context [N.eqb c ?k] => destruct (N.eqb_spec c k) as [-> | ?]
         end.

Ltac normalise_with c D T :=
  unfold Kelompok_Umur_when;
  rewrite trim_fixed by (simpl; discriminate);
  unfold re_ge50, re_0_4, re_5_14, re_15_19, re_20_24, re_25_49, loose,
    label_ge50, mojibake_ge, ge_sign, lit;
  cbn -[N.eqb line_terminator];
  rewrite ?T;
  split_on_char c;
  try (vm_compute in D; discriminate D);
  try (vm_compute in T; discriminate T);
  try (vm_compute; reflexivity).

(** X4. Any single separator is tolerated: the two endpoints of a
    bucket with one character between them, which is neither a digit
    nor a line terminator, are normalised to the label of the bucket,
    whatever that character is. *)
Theorem single_separator_tolerated (c : char) :
  digit c = false -> line_terminator c = false ->
  Kelompok_Umur_when (lit "0" ++ [c] ++ lit "4") = lit "0-4" /\
  Kelompok_Umur_when (lit "5" ++ [c] ++ lit "14") = lit "5-14" /\
  Kelompok_Umur_when (lit "15" ++ [c] ++ lit "19") = lit "15-19" /\
  Kelompok_Umur_when (lit "20" ++ [c] ++ lit "24") = lit "20-24" /\
  Kelompok_Umur_when (lit "25" ++ [c] ++ lit "49") = lit "25-49".
Proof.
  intros D T. repeat split; normalise_with c D T.
Qed.

(** With an en dash between the endpoints; and what a digit between
    them can do. *)
Lemma single_separator_tolerated_witness :
  Kelompok_Umur_when (lit "15" ++ [8211%N] ++ lit "19") = lit "15-19" /\
  Kelompok_Umur_when (lit "5" ++ lit "0" ++ lit "14") = lit "0-4".
Proof.
  split.
  - apply (single_separator_tolerated 8211%N); reflexivity.
  - vm_compute. reflexivity.
Defined.

(** X5. A successful load keeps every row of the CSV file, in its
    order, and keeps its region, case count, gender and year; the age
    label of every loaded row is a fixed point of the normaliser. A
    load succeeds only if the path exists and the reader returned a
    table. *)
Theorem load_data_keeps_rows (env : environment) (df_spark : list row) :
  load_data env = Ok df_spark ->
  exists raw,
    path_exists env = true /\
    read_csv env = Ok raw /\
    map Kabupaten_Kota df_spark = map nama_kabupaten_kota raw /\
    map Jumlah_Kasus df_spark = map jumlah_kasus raw /\
    map Jenis_Kelamin df_spark = map jenis_kelamin raw /\
    map Tahun df_spark = map tahun raw /\
    map Kelompok_Umur df_spark = map (fun r => Kelompok_Umur_when (kelompok_umur r)) raw /\
    Forall (fun r => Kelompok_Umur_when (Kelompok_Umur r) = Kelompok_Umur r) df_spark.
Proof.
  unfold load_data. destruct (path_exists env); simpl; [| discriminate].
  destruct (read_csv env) as [raw | e]; [| discriminate].
  intros [= <-]. exists raw. rewrite !map_map. simpl.
  repeat split. apply Forall_map, Forall_forall. intros r _. simpl.
  apply normalised_label_fixed.
Qed.

Lemma load_data_keeps_rows_witness :
  exists raw,
    read_csv env_example = Ok raw /\
    map Jumlah_Kasus df_example = map jumlah_kasus raw.
Proof.
  assert (L : load_data env_example = Ok df_example) by (vm_compute; reflexivity).
  destruct (load_data_keeps_rows env_example df_example L)
    as (raw & _ & R & _ & C & _).
  exists raw. split; assumption.
Defined.

(** ** The sidebar lists *)

Section UniqueFacts.
Context {K : Type} (eqb : K -> K -> bool).
Hypothesis eqb_eq : forall a b, eqb a b = true <-> a = b.

Lemma existsb_eqb_In (a : K) (l : list K) : existsb (eqb a) l = true <-> In a l.
Proof.
  rewrite existsb_exists. split.
  - intros (x & I & E). apply eqb_eq in E. subst. exact I.
  - intro I. exists a. split; [exact I | apply eqb_eq; reflexivity].
Qed.

Lemma unique_from_In (l : list K) :
  forall seen a, In a (unique_from eqb seen l) <-> In a l /\ ~ In a seen.
Proof.
  induction l as [| b l IH]; intros seen a; simpl; [tauto |].
  destruct (existsb (eqb b) seen) eqn:E.
  - apply existsb_eqb_In in E. rewrite IH. intuition congruence.
  - assert (N : ~ In b seen) by (rewrite <- existsb_eqb_In; congruence).
    simpl. rewrite IH. simpl. split.
    + intros [<- | (I & D)]; [tauto |]. split; [tauto |]. tauto.
    + intros ([<- | I] & D); [tauto |].
      assert (Decidable : a = b \/ a <> b).
      { destruct (eqb a b) eqn:C; [left; apply eqb_eq; exact C |].
        right. intro X. apply eqb_eq in X. congruence. }
      destruct Decidable as [-> | Ne]; [tauto |]. right. intuition congruence.
Qed.

Lemma unique_from_NoDup (l : list K) :
  forall seen, NoDup (unique_from eqb seen l).
Proof.
  induction l as [| b l IH]; intros seen; simpl; [constructor |].
  destruct (existsb (eqb b) seen); [apply IH |].
  constructor; [| apply IH].
  rewrite unique_from_In. simpl. tauto.
Qed.

Lemma unique_In (l : list K) (a : K) : In a (unique eqb l) <-> In a l.
Proof. unfold unique. rewrite unique_from_In. simpl. tauto. Qed.

Lemma unique_NoDup (l : list K) : NoDup (unique eqb l).
Proof. apply unique_from_NoDup. Qed.

(** A [distinct], after the exchange. *)
Lemma distinct_spec `{SparkExchange} (l : list K) :
  NoDup (exchange (unique eqb l)) /\
  (forall a, In a (exchange (unique eqb l)) <-> In a l).
Proof.
  pose proof (exchange_perm _ (unique eqb l)) as P. split.
  - eapply Permutation_NoDup; [symmetry; exact P | apply unique_NoDup].
  - intro a. split; intro I.
    + apply (proj1 (unique_In l a)).
      eapply Permutation_in; [exact P | exact I].
    + eapply Permutation_in; [symmetry; exact P |].
      apply (proj2 (unique_In l a)). exact I.
Qed.
End UniqueFacts.

Lemma sorted_distinct (A : Type) (leb : A -> A -> bool) (l : list A) :
  (forall x y, leb x y = true \/ leb y x = true) ->
  (forall x y z, leb x y = true -> leb y z = true -> leb x z = true) ->
  NoDup l ->
  StronglySorted (fun x y => leb x y = true /\ x <> y) (sort leb l) /\
  NoDup (sort leb l) /\
  (forall a, In a (sort leb l) <-> In a l).
Proof.
  intros Tot Tr N. pose proof (sort_perm leb l) as P.
  assert (N' : NoDup (sort leb l))
    by (eapply Permutation_NoDup; [symmetry; exact P | exact N]).
  split; [| split; [exact N' |]].
  - apply (sorted_strict _ _ (fun x y => leb x y = true) _ (fun x => x)).
    + intros x y L D. split; assumption.
    + apply sort_sorted; assumption.
    + rewrite map_id. exact N'.
  - intro a. split; intro I.
    + eapply Permutation_in; [exact P | exact I].
    + eapply Permutation_in; [symmetry; exact P | exact I].
Qed.

Lemma list_tahun_spec `{SparkExchange} (df_spark : list row) :
  StronglySorted (fun a b => b < a) (list_tahun df_spark) /\
  (forall y, In y (list_tahun df_spark) <-> In y (map Tahun df_spark)).
Proof.
  destruct (distinct_spec Z.eqb Z.eqb_eq (map Tahun df_spark)) as (Ny & Iy).
  destruct (sorted_distinct _ (fun a b => b <=? a) _
              (fun x y => ltac:(rewrite !Z.leb_le; lia))
              (fun x y z => ltac:(rewrite !Z.leb_le; lia)) Ny) as (Sy & _ & My).
  unfold list_tahun. split.
  - eapply StronglySorted_impl_in; [| exact Sy].
    intros x y _ _ [L D]. apply Z.leb_le in L. lia.
  - intro y. rewrite My. apply Iy.
Qed.

Lemma list_kota_spec `{SparkExchange} (df_spark : list row) :
  StronglySorted str_lt (list_kota df_spark) /\
  (forall k, In k (list_kota df_spark) <-> In k (map Kabupaten_Kota df_spark)).
Proof.
  destruct (distinct_spec str_eqb str_eqb_eq (map Kabupaten_Kota df_spark))
    as (Nk & Ik).
  destruct (sorted_distinct _ str_leb _ str_leb_total str_leb_trans Nk)
    as (Sk & _ & Mk).
  unfold list_kota. split.
  - eapply StronglySorted_impl_in; [| exact Sk].
    intros x y _ _ [L D]. apply str_leb_lt; assumption.
  - intro k. rewrite Mk. apply Ik.
Qed.

(** X6. The year list of the sidebar holds exactly the years of the
    table, each once, the latest first; the region list holds exactly
    the regions of the table, each once, in ascending order. *)
Theorem sidebar_lists `{SparkExchange} (df_spark : list row) :
  StronglySorted (fun a b => b < a) (list_tahun df_spark) /\
  (forall y, In y (list_tahun df_spark) <-> In y (map Tahun df_spark)) /\
  StronglySorted str_lt (list_kota df_spark) /\
  (forall k, In k (list_kota df_spark) <-> In k (map Kabupaten_Kota df_spark)).
Proof.
  destruct (list_tahun_spec df_spark) as (Sy & My).
  destruct (list_kota_spec df_spark) as (Sk & Mk).
  split; [exact Sy |]. split; [exact My |]. split; [exact Sk | exact Mk].
Qed.

(** ** The filtered view *)

Lemma filtered_spark_In (df_spark : list row) (tahun_pilih : Z)
  (kota_pilih : list str) (r : row) :
  In r (filtered_spark df_spark tahun_pilih kota_pilih) <->
  In r df_spark /\ Tahun r = tahun_pilih /\ In (Kabupaten_Kota r) kota_pilih.
Proof.
  unfold filtered_spark. rewrite filter_In, andb_true_iff, Z.eqb_eq, inb_In.
  tauto.
Qed.

Lemma filter_filter (A : Type) (f g : A -> bool) (l : list A) :
  filter f (filter g l) = filter (fun x => (f x && g x)%bool) l.
Proof.
  induction l as [| x l IH]; simpl; [reflexivity |].
  destruct (g x); simpl; rewrite ?andb_false_r, ?andb_true_r;
    [destruct (f x) |]; rewrite IH; reflexivity.
Qed.

Lemma group_total_year (df_spark : list row) (tahun_pilih : Z)
  (kota_pilih : list str) :
  group_total Z.eqb Tahun tahun_pilih
    (filter (fun r => inb (Kabupaten_Kota r) kota_pilih) df_spark)
  = total_kasus (filtered_spark df_spark tahun_pilih kota_pilih).
Proof.
  unfold group_total, filtered_spark. rewrite total_kasus_sum, filter_filter.
  reflexivity.
Qed.

(** X7. The trend series and the total metric agree: the entry of
    the series for a year holds the total of the view of that year
    and the same regions, and every year whose view is not empty has
    an entry. *)
Theorem trend_point_is_total `{SparkExchange} (df_spark : list row)
  (tahun_pilih : Z) (kota_pilih : list str) :
  (forall t, In (tahun_pilih, t) (df_trend_spark df_spark kota_pilih) ->
             t = total_kasus (filtered_spark df_spark tahun_pilih kota_pilih)) /\
  (filtered_spark df_spark tahun_pilih kota_pilih <> [] ->
   In (tahun_pilih, total_kasus (filtered_spark df_spark tahun_pilih kota_pilih))
      (df_trend_spark df_spark kota_pilih)).
Proof.
  destruct (df_trend_spark_spec df_spark kota_pilih) as (_ & _ & Keys & _ & Tot).
  assert (A : forall t, In (tahun_pilih, t) (df_trend_spark df_spark kota_pilih) ->
                        t = total_kasus (filtered_spark df_spark tahun_pilih kota_pilih)).
  { intros t I. rewrite <- group_total_year. apply Tot. exact I. }
  split; [exact A |]. intro NE.
  assert (Ex : exists r, In r (filtered_spark df_spark tahun_pilih kota_pilih)).
  { destruct (filtered_spark df_spark tahun_pilih kota_pilih) as [| r view];
      [congruence | exists r; left; reflexivity]. }
  destruct Ex as (r & I).
  apply filtered_spark_In in I. destruct I as (I & Y & R).
  assert (Iy : In tahun_pilih (map fst (df_trend_spark df_spark kota_pilih))).
  { apply Keys. rewrite <- Y. apply in_map, filter_In.
    split; [exact I | apply inb_In; exact R]. }
  apply in_map_iff in Iy. destruct Iy as ([y t] & Ey & It). simpl in Ey. subst y.
  rewrite <- (A t It). exact It.
Qed.

(** X8. The number of regions of a view is the number of different
    regions among its rows: it is at most the number of selected
    regions and at most the number of rows, and at least 1 for a view
    that is not empty. *)
Theorem jumlah_wilayah_bounds `{SparkExchange} (df_spark : list row)
  (tahun_pilih : Z) (kota_pilih : list str) :
  let view := filtered_spark df_spark tahun_pilih kota_pilih in
  (jumlah_wilayah view <= List.length kota_pilih)%nat /\
  (jumlah_wilayah view <= List.length view)%nat /\
  (view <> [] -> (1 <= jumlah_wilayah view)%nat) /\
  exists regions,
    NoDup regions /\ List.length regions = jumlah_wilayah view /\
    forall k, In k regions <-> In k (map Kabupaten_Kota view).
Proof.
  intro view. unfold jumlah_wilayah.
  set (u := unique str_eqb (map Kabupaten_Kota view)).
  rewrite (Permutation_length (exchange_perm _ u)).
  pose proof (unique_NoDup str_eqb str_eqb_eq (map Kabupaten_Kota view)) as N.
  pose proof (unique_In str_eqb str_eqb_eq (map Kabupaten_Kota view)) as I.
  fold u in N, I.
  split; [| split; [| split]].
  - apply NoDup_incl_length; [exact N |]. intros k Ik. apply I in Ik.
    apply in_map_iff in Ik. destruct Ik as (r & <- & Ir).
    apply filtered_spark_In in Ir. tauto.
  - rewrite <- (length_map Kabupaten_Kota view).
    apply NoDup_incl_length; [exact N |]. intros k Ik. apply I. exact Ik.
  - intro NE. destruct view as [| r v] eqn:E; [congruence |].
    assert (Ir : In (Kabupaten_Kota r) u) by (apply I; left; reflexivity).
    destruct u; [contradiction | simpl; lia].
  - exists u. split; [exact N |]. split; [reflexivity | exact I].
Qed.

Lemma total_kasus_filter_split (f g : row -> bool) (l : list row) :
  (forall r, f r = true -> g r = true -> False) ->
  sum_Z (map Jumlah_Kasus (filter (fun r => (f r || g r)%bool) l))
  = sum_Z (map Jumlah_Kasus (filter f l)) + sum_Z (map Jumlah_Kasus (filter g l)).
Proof.
  intro D. induction l as [| r l IH]; simpl; [reflexivity |].
  destruct (f r) eqn:F, (g r) eqn:G; simpl; try lia.
  exfalso. exact (D r F G).
Qed.

(** X9. The total is additive over disjoint selections: the total of
    the view of two lists of regions without a common region is the
    sum of the totals of the two views. *)
Theorem total_kasus_additive (df_spark : list row) (tahun_pilih : Z)
  (kota1 kota2 : list str) :
  (forall k, In k kota1 -> In k kota2 -> False) ->
  total_kasus (filtered_spark df_spark tahun_pilih (kota1 ++ kota2))
  = total_kasus (filtered_spark df_spark tahun_pilih kota1)
    + total_kasus (filtered_spark df_spark tahun_pilih kota2).
Proof.
  intro D. rewrite !total_kasus_sum. unfold filtered_spark.
  rewrite <- (total_kasus_filter_split
                (fun r => (Tahun r =? tahun_pilih) && inb (Kabupaten_Kota r) kota1)%bool
                (fun r => (Tahun r =? tahun_pilih) && inb (Kabupaten_Kota r) kota2)%bool).
  - f_equal. f_equal. apply filter_ext. intro r. unfold inb.
    rewrite existsb_app. destruct (Tahun r =? tahun_pilih); reflexivity.
  - intros r F G. apply andb_true_iff in F, G.
    destruct F as [_ F], G as [_ G]. apply inb_In in F, G. exact (D _ F G).
Qed.

Lemma total_kasus_additive_witness :
  total_kasus (filtered_spark df_two_regions 2022 (kota_bandung ++ kota_bogor))
  = total_kasus (filtered_spark df_two_regions 2022 kota_bandung)
    + total_kasus (filtered_spark df_two_regions 2022 kota_bogor) /\
  total_kasus (filtered_spark df_two_regions 2022 (kota_bandung ++ kota_bogor)) = 17.
Proof.
  split; [| vm_compute; reflexivity].
  apply total_kasus_additive.
  intros k [<- | []] [E | []]. vm_compute in E. discriminate E.
Defined.

Lemma trend_point_is_total_witness :
  filtered_spark df_two_regions 2022 kota_bogor <> [] /\
  In (2022, 7) (df_trend_spark (H := reversed) df_two_regions kota_bogor).
Proof.
  assert (NE : filtered_spark df_two_regions 2022 kota_bogor <> [])
    by (vm_compute; discriminate).
  split; [exact NE |].
  exact (proj2 (trend_point_is_total (H := reversed) df_two_regions 2022 kota_bogor) NE).
Defined.

Lemma jumlah_wilayah_bounds_witness :
  filtered_spark df_two_regions 2022 (kota_bandung ++ kota_bogor) <> [] /\
  (1 <= jumlah_wilayah (H := reversed)
          (filtered_spark df_two_regions 2022 (kota_bandung ++ kota_bogor)))%nat /\
  jumlah_wilayah (H := reversed)
    (filtered_spark df_two_regions 2022 (kota_bandung ++ kota_bogor)) = 2%nat.
Proof.
  assert (NE : filtered_spark df_two_regions 2022 (kota_bandung ++ kota_bogor) <> [])
    by (vm_compute; discriminate).
  split; [exact NE |]. split; [| vm_compute; reflexivity].
  exact (proj1 (proj2 (proj2 (jumlah_wilayah_bounds (H := reversed) df_two_regions
                                2022 (kota_bandung ++ kota_bogor)))) NE).
Defined.

(** ** The tables and the order of the exchange *)

(** X10. The gender table has one row for every gender of the view
    and no gender twice, and the total of a row is the sum of the case
    counts of the rows of the view with that gender, in whatever order
    Spark returns the groups. *)
Theorem df_gender_table `{SparkExchange} (view : list row) :
  NoDup (map fst (rows (df_gender view))) /\
  (forall g, In g (map fst (rows (df_gender view))) <->
             In g (map Jenis_Kelamin view)) /\
  (forall g t, In (g, t) (rows (df_gender view)) ->
               t = group_total str_eqb Jenis_Kelamin g view).
Proof.
  unfold df_gender. rewrite rows_toPandas. unfold df_gender_spark.
  destruct (groupBy_sum_spec str_eqb str_eqb_eq Jenis_Kelamin view)
    as (N & Keys & _ & Tot).
  split; [exact N |]. split; [exact Keys | exact Tot].
Qed.

(** X11. The trend series has one entry for every year in which a
    selected region has a row, in strictly ascending order of the
    years; the total of an entry is the sum of the case counts of that
    year in the selected regions, and the totals of the series add up
    to the case count of the selected regions over all years. With no
    region selected the series is empty. *)
Theorem df_trend_series `{SparkExchange} (df_spark : list row)
  (kota_pilih : list str) :
  let regional := filter (fun r => inb (Kabupaten_Kota r) kota_pilih) df_spark in
  let trend := df_trend_spark df_spark kota_pilih in
  StronglySorted (fun p q => fst p < fst q) trend /\
  (forall y, In y (map fst trend) <-> In y (map Tahun regional)) /\
  (forall y t, In (y, t) trend ->
               t = sum_Z (map Jumlah_Kasus
                            (filter (fun r => Tahun r =? y) regional))) /\
  sum_Z (map snd trend) = sum_Z (map Jumlah_Kasus regional) /\
  df_trend_spark df_spark [] = [].
Proof.
  intros regional trend.
  destruct (df_trend_spark_spec df_spark kota_pilih) as (S & _ & Keys & Sum & Tot).
  split; [exact S |]. split; [exact Keys |]. split; [exact Tot |].
  split; [exact Sum |].
  destruct (df_trend_spark_spec df_spark []) as (_ & _ & Keys0 & _).
  destruct (df_trend_spark df_spark []) as [| [y t] l]; [reflexivity |].
  exfalso. specialize (Keys0 y). simpl in Keys0.
  assert (I : In y (map Tahun (filter (fun _ : row => false) df_spark)))
    by (apply Keys0; left; reflexivity).
  apply in_map_iff in I. destruct I as (r & _ & I).
  apply filter_In in I. destruct I as [_ I]. discriminate.
Qed.

Lemma str_lt_asym (a b : str) : str_lt a b -> str_lt b a -> False.
Proof.
  unfold str_lt. intros L1 L2. rewrite (str_compare_antisym a b), L1 in L2.
  discriminate.
Qed.

Lemma str_leb_antisym (a b : str) :
  str_leb a b = true -> str_leb b a = true -> a = b.
Proof.
  intros L1 L2. destruct (list_eq_dec N.eq_dec a b) as [E | Ne]; [exact E |].
  exfalso. apply (str_lt_asym a b); apply str_leb_lt; congruence.
Qed.

Lemma df_umur_spark_exchange (E1 E2 : SparkExchange) (view : list row) :
  @df_umur_spark E1 view = @df_umur_spark E2 view.
Proof.
  destruct (@df_umur_spark_spec E1 view) as (S1 & _).
  destruct (@df_umur_spark_spec E2 view) as (S2 & _).
  apply (sorted_perm_unique _ _ _ _ S1 S2).
  - unfold df_umur_spark, orderBy_str, groupBy_sum.
    rewrite !sort_perm, !exchange_perm. reflexivity.
  - intros x y _ _ L1 L2. exfalso. exact (str_lt_asym _ _ L1 L2).
Qed.

Lemma df_trend_spark_exchange (E1 E2 : SparkExchange) (df_spark : list row)
  (kota_pilih : list str) :
  @df_trend_spark E1 df_spark kota_pilih = @df_trend_spark E2 df_spark kota_pilih.
Proof.
  destruct (@df_trend_spark_spec E1 df_spark kota_pilih) as (S1 & _).
  destruct (@df_trend_spark_spec E2 df_spark kota_pilih) as (S2 & _).
  apply (sorted_perm_unique _ _ _ _ S1 S2).
  - unfold df_trend_spark, orderBy_Z, groupBy_sum.
    rewrite !sort_perm, !exchange_perm. reflexivity.
  - intros x y _ _ L1 L2. lia.
Qed.

Lemma sort_distinct_exchange (A : Type) (leb : A -> A -> bool) (l1 l2 : list A) :
  (forall x y, leb x y = true \/ leb y x = true) ->
  (forall x y z, leb x y = true -> leb y z = true -> leb x z = true) ->
  (forall x y, leb x y = true -> leb y x = true -> x = y) ->
  Permutation l1 l2 -> sort leb l1 = sort leb l2.
Proof.
  intros Tot Tr Anti P.
  apply (sorted_perm_unique _ (fun x y => leb x y = true)).
  - apply sort_sorted; assumption.
  - apply sort_sorted; assumption.
  - rewrite !sort_perm. exact P.
  - intros x y _ _. apply Anti.
Qed.

(** X12. The order in which Spark returns the groups of a [groupBy]
    or a [distinct] does not show in the dashboard, but for one place:
    the age table, the trend series, the two sidebar lists, the
    number of regions, the dominant age group and the peak year are
    the same for any two orders, and the gender table holds the same
    rows; the dominant gender can differ when two genders tie. *)
Theorem exchange_order_is_hidden (E1 E2 : SparkExchange) (df_spark : list row)
  (tahun_pilih : Z) (kota_pilih : list str) :
  let view := filtered_spark df_spark tahun_pilih kota_pilih in
  rows (@df_umur E1 view) = rows (@df_umur E2 view) /\
  @df_trend_spark E1 df_spark kota_pilih = @df_trend_spark E2 df_spark kota_pilih /\
  @list_tahun E1 df_spark = @list_tahun E2 df_spark /\
  @list_kota E1 df_spark = @list_kota E2 df_spark /\
  @jumlah_wilayah E1 view = @jumlah_wilayah E2 view /\
  @insight_umur E1 view = @insight_umur E2 view /\
  puncak_tahun (@df_trend E1 df_spark kota_pilih)
  = puncak_tahun (@df_trend E2 df_spark kota_pilih) /\
  Permutation (rows (@df_gender E1 view)) (rows (@df_gender E2 view)) /\
  @gender_dom in_order (filtered_spark df_ties 2022 kota_bandung)
  <> @gender_dom reversed (filtered_spark df_ties 2022 kota_bandung).
Proof.
  intro view.
  assert (U : @df_umur E1 view = @df_umur E2 view).
  { unfold df_umur. rewrite (df_umur_spark_exchange E1 E2). reflexivity. }
  assert (T : @df_trend E1 df_spark kota_pilih = @df_trend E2 df_spark kota_pilih).
  { unfold df_trend. rewrite (df_trend_spark_exchange E1 E2). reflexivity. }
  split; [rewrite U; reflexivity |].
  split; [apply df_trend_spark_exchange |].
  split; [| split; [| split; [| split; [| split; [| split]]]]].
  - unfold list_tahun. apply sort_distinct_exchange.
    + intros x y. rewrite !Z.leb_le. lia.
    + intros x y z. rewrite !Z.leb_le. lia.
    + intros x y. rewrite !Z.leb_le. lia.
    + rewrite (@exchange_perm E1), (@exchange_perm E2). reflexivity.
  - unfold list_kota. apply sort_distinct_exchange.
    + apply str_leb_total.
    + apply str_leb_trans.
    + apply str_leb_antisym.
    + rewrite (@exchange_perm E1), (@exchange_perm E2). reflexivity.
  - unfold jumlah_wilayah.
    rewrite (Permutation_length (@exchange_perm E1 _ _)).
    rewrite (Permutation_length (@exchange_perm E2 _ _)). reflexivity.
  - unfold insight_umur, kelompok_dominan. rewrite U. reflexivity.
  - rewrite T. reflexivity.
  - unfold df_gender. rewrite !rows_toPandas. unfold df_gender_spark, groupBy_sum.
    rewrite (@exchange_perm E1), (@exchange_perm E2). reflexivity.
  - vm_compute. discriminate.
Qed.

(** ** The peak year, further *)

Lemma idxmax_label (K : Type) (df : frame K) (i : nat) :
  idxmax df = Some i -> In i (map fst df).
Proof.
  intro I. destruct df as [| p df'] eqn:E; [discriminate |].
  rewrite <- E in *.
  assert (NE : df <> []) by (rewrite E; discriminate).
  destruct (idxmax_spec df NE) as (pre & j & k & t & post & -> & J & _).
  rewrite I in J. injection J as ->.
  rewrite map_app. apply in_or_app. right. left. reflexivity.
Qed.

Lemma loc_label (K : Type) (df : frame K) (i : nat) :
  In i (map fst df) -> exists r, loc df i = Some r /\ In r (rows df).
Proof.
  unfold loc, rows. induction df as [| [j q] df IH]; simpl; [contradiction |].
  intros [-> | I].
  - rewrite Nat.eqb_refl. exists q. auto.
  - destruct (Nat.eqb j i); [exists q; auto |].
    destruct (IH I) as (r & L & Ir). exists r. auto.
Qed.

Lemma top_row_some (df : frame Z) :
  df <> [] -> exists r, top_row df = Some r /\ In r (rows df).
Proof.
  intro NE. destruct (idxmax_spec df NE) as (pre & i & k & t & post & E & I & _).
  destruct (loc_label _ df i (idxmax_label _ df i I)) as (r & L & Ir).
  exists r. unfold top_row. rewrite I. auto.
Qed.

Lemma puncak_tahun_nonempty (df : frame Z) :
  df <> [] ->
  exists y t txt,
    puncak_tahun df = Some (y, t, txt) /\ In (y, t) (rows df) /\ txt <> dash.
Proof.
  intro NE. destruct (top_row_some df NE) as ([y t] & T & I).
  unfold puncak_tahun. rewrite T. cbv zeta. simpl fst. simpl snd.
  assert (Iy : In y (map fst (rows (sort_values_Tahun df)))).
  { apply in_map_iff. exists (y, t). split; [reflexivity |].
    unfold rows in *. apply in_map_iff in I. destruct I as (p & Ep & Ip).
    apply in_map_iff. exists p. split; [exact Ep |].
    eapply Permutation_in; [symmetry; apply sort_perm | exact Ip]. }
  rewrite (proj2 (existsb_eqb_In Z.eqb Z.eqb_eq y _) Iy).
  destruct (index_of_In Z.eqb Z.eqb_eq y _ Iy) as (idx & ->).
  destruct (Nat.ltb 0 idx && negb (nth (idx - 1) _ 0 =? 0))%bool;
    eexists _, _, _; (split; [reflexivity |]); split; auto; discriminate.
Qed.

(** X13. The peak insight is missing only for an empty series: for
    every series that is not empty the derivation yields a row of the
    series with either the percentage text or the "no earlier data"
    marker, and never the text "-". *)
Theorem puncak_tahun_available (df : frame Z) :
  (puncak_tahun df = None <-> df = []) /\
  (forall y t txt,
      puncak_tahun df = Some (y, t, txt) ->
      In (y, t) (rows df) /\ txt <> dash).
Proof.
  pose proof (puncak_tahun_nonempty df) as A.
  split; [split |].
  - intro N. destruct df as [| p df']; [reflexivity |].
    destruct A as (y & t & txt & P & _); [discriminate | congruence].
  - intros ->. reflexivity.
  - intros y t txt P. destruct df as [| p df']; [discriminate |].
    destruct A as (y' & t' & txt' & P' & I & D); [discriminate |].
    rewrite P in P'. injection P' as -> -> ->. auto.
Qed.

Lemma yoy_of_naik (pre : list (Z * Z)) (t : Z) (q : Q) (prev : Z) :
  yoy_of pre t = naik_dari q prev ->
  prev <> 0 /\
  q = (inject_Z (t - prev) / inject_Z prev * 100)%Q /\
  exists y', In (y', prev) pre.
Proof.
  unfold yoy_of. destruct (rev pre) as [| [y' p] l] eqn:E; [discriminate |].
  destruct (p =? 0) eqn:C; [discriminate |].
  intros [= <- <-]. apply Z.eqb_neq in C. split; [exact C |].
  split; [reflexivity |]. exists y'. apply in_rev. rewrite E. left. reflexivity.
Qed.

(** X14. The percentage text speaks of a rise, and it is one: when
    no case count of the table is negative and the peak insight shows
    a percentage, the total before the peak is positive and smaller
    than the peak, and the percentage is positive. *)
Theorem yoy_rise_is_positive `{SparkExchange} (df_spark : list row)
  (kota_pilih : list str) (y t : Z) (yoy : Q) (prev : Z) :
  Forall (fun r => 0 <= Jumlah_Kasus r) df_spark ->
  puncak_tahun (df_trend df_spark kota_pilih) = Some (y, t, naik_dari yoy prev) ->
  0 < prev < t /\
  yoy = (inject_Z (t - prev) / inject_Z prev * 100)%Q /\
  (0 < yoy)%Q.
Proof.
  intros F P.
  assert (NE : df_trend_spark df_spark kota_pilih <> []).
  { intro E. unfold df_trend in P. rewrite E in P. discriminate. }
  destruct (top_row_spec _ NE) as ([y' t'] & T & M).
  destruct (df_trend_spark_spec df_spark kota_pilih) as (S & _ & _ & _ & Tot).
  destruct M as (pre & post & E & Fp & Fq).
  unfold df_trend in P. revert T S P. rewrite E. intros T S P.
  rewrite (puncak_tahun_eval _ _ _ _ S T) in P. injection P as -> -> Y.
  apply yoy_of_naik in Y. destruct Y as (NZ & -> & y'' & I).
  assert (Lt : prev < t).
  { rewrite Forall_forall in Fp. apply (Fp (y'', prev) I). }
  assert (Pos : 0 <= prev).
  { rewrite (Tot y'' prev) by (rewrite E; apply in_or_app; left; exact I).
    apply group_total_nonneg.
    rewrite Forall_forall in *. intros r Ir. apply filter_In in Ir. apply F, Ir. }
  split; [lia |]. split; [reflexivity |].
  destruct prev as [| p | p]; try lia.
  unfold Qlt, Qdiv, Qmult, Qinv, inject_Z. simpl. nia.
Qed.

Lemma yoy_rise_is_positive_witness :
  Forall (fun r => 0 <= Jumlah_Kasus r) df_example /\
  puncak_tahun (df_trend (H := in_order) df_example kota_bandung)
  = Some (2022, 15, naik_dari (700 # 8)%Q 8) /\
  (0 < 700 # 8)%Q.
Proof.
  assert (F : Forall (fun r => 0 <= Jumlah_Kasus r) df_example)
    by (repeat constructor; discriminate).
  assert (P : puncak_tahun (df_trend (H := in_order) df_example kota_bandung)
              = Some (2022, 15, naik_dari (700 # 8)%Q 8))
    by (vm_compute; reflexivity).
  split; [exact F |]. split; [exact P |].
  exact (proj2 (proj2 (yoy_rise_is_positive (H := in_order) df_example kota_bandung
                         2022 15 (700 # 8)%Q 8 F P))).
Defined.

(** ** The script, further *)

Lemma puncak_tahun_some `{SparkExchange} (df_spark : list row) (tahun_pilih : Z)
  (kota_pilih : list str) :
  filtered_spark df_spark tahun_pilih kota_pilih <> [] ->
  empty (df_trend df_spark kota_pilih) = false /\
  puncak_tahun (df_trend df_spark kota_pilih) <> None.
Proof.
  intro NE. pose proof (df_trend_nonempty df_spark tahun_pilih kota_pilih NE) as T.
  split.
  - destruct (df_trend df_spark kota_pilih); [congruence | reflexivity].
  - intro N. destruct (puncak_tahun_nonempty _ T) as (y & t & txt & P & _).
    congruence.
Qed.

Lemma insights_some `{SparkExchange} (view : list row) :
  view <> [] -> insight_umur view <> None /\ insight_gender view <> None.
Proof.
  intro NE. split; intro E.
  - destruct (kelompok_dominan_spec view NE) as (r & Er & _).
    unfold insight_umur in E. rewrite Er in E. discriminate.
  - destruct (gender_dom_spec view NE) as (r & Er & _).
    unfold insight_gender in E. rewrite Er in E. discriminate.
Qed.

(** A run that draws the whole dashboard. *)
Lemma run_complete `{SparkExchange} (env : environment) (df_spark : list row)
  (tahun_pilih : Z) (kota_pilih : list str) (format_choice : format) :
  init_spark env = Ok tt ->
  load_data env = Ok df_spark ->
  filtered_spark df_spark tahun_pilih kota_pilih <> [] ->
  sum_total_kasus env = Ok tt ->
  sum_umur env = Ok tt ->
  sum_gender env = Ok tt ->
  run env tahun_pilih kota_pilih format_choice
  = (Done (report_of env df_spark tahun_pilih kota_pilih),
     log_complete env format_choice).
Proof.
  intros I L NE St Su Sg.
  destruct (puncak_tahun_some df_spark tahun_pilih kota_pilih NE) as (Et & Pt).
  destruct (insights_some _ NE) as (Iu & Ig).
  unfold run, dashboard, report_of, log_complete, log_sidebar, sidebar_download,
    sum_job, df_trend_or_empty, bind, try_except, ret, draw, run_job, halt_with.
  rewrite I, L, St, Su, Sg. cbv zeta.
  remember (filtered_spark df_spark tahun_pilih kota_pilih) as view eqn:Ev.
  remember (df_trend df_spark kota_pilih) as trend eqn:Etr.
  destruct view as [| r0 v]; [congruence |].
  simpl List.length. simpl Nat.eqb. cbv iota.
  destruct (insight_umur (r0 :: v)); [| congruence].
  destruct (insight_gender (r0 :: v)); [| congruence].
  destruct (sum_trend env) as [u | e].
  - rewrite Et. destruct (puncak_tahun trend); [| congruence].
    destruct format_choice, (to_excel env), (json_dumps env); reflexivity.
  - destruct format_choice, (to_excel env), (json_dumps env); reflexivity.
Qed.



(** X16. When Spark cannot start, the run shows the Spark error and
    the exception and exits with status 1: nothing is loaded, no
    query runs and nothing of the dashboard is drawn, whatever the
    state of the CSV file. *)
Theorem spark_failure_is_fatal `{SparkExchange} (env : environment)
  (tahun_pilih : Z) (kota_pilih : list str) (format_choice : format) (e : exn) :
  init_spark env = Raise e ->
  run env tahun_pilih kota_pilih format_choice
  = (Halted (sys_exit 1), log_spark_failure e).
Proof.
  intro I. pose proof (run_cases env tahun_pilih kota_pilih format_choice) as C.
  rewrite I in C. exact C.
Qed.

Lemma spark_failure_is_fatal_witness :
  run (H := in_order) env_no_spark 2022 kota_bandung CSV
  = (Halted (sys_exit 1),
     log_spark_failure (Exception "Java gateway process exited")).
Proof.
  apply spark_failure_is_fatal. reflexivity.
Defined.

(** ** The selection *)

Lemma all_regions_view `{SparkExchange} (df_spark : list row) (tahun_pilih : Z) :
  filtered_spark df_spark tahun_pilih (list_kota df_spark)
  = filter (fun r => Tahun r =? tahun_pilih) df_spark.
Proof.
  unfold filtered_spark. apply filter_ext_in. intros r I.
  assert (E : inb (Kabupaten_Kota r) (list_kota df_spark) = true).
  { apply inb_In, list_kota_spec, in_map, I. }
  rewrite E. apply andb_true_r.
Qed.

Lemma offered_year_has_rows `{SparkExchange} (df_spark : list row) (y : Z) :
  In y (list_tahun df_spark) ->
  filtered_spark df_spark y (list_kota df_spark) <> [].
Proof.
  intros I E. apply list_tahun_spec in I. apply in_map_iff in I.
  destruct I as (r & Y & I).
  assert (Iv : In r (filtered_spark df_spark y (list_kota df_spark))).
  { apply filtered_spark_In. split; [exact I |]. split; [exact Y |].
    apply list_kota_spec, in_map, I. }
  rewrite E in Iv. exact Iv.
Qed.

(** X17. The selection of a first visit is never met with "no data".
    When the loaded table has a row, the year select box starts on the
    latest year of the table; and for that year, as for every year the
    box offers, the view of all regions (the start value of the region
    box) holds exactly the rows of that year and is not empty. So the
    run does not end with the "no data" stop nor with [sys.exit], and
    it draws the whole dashboard when the sums of the total, the age
    table and the gender table go through. *)
Theorem default_selection_draws `{SparkExchange} (env : environment)
  (df_spark : list row) (format_choice : format) :
  init_spark env = Ok tt ->
  load_data env = Ok df_spark ->
  df_spark <> [] ->
  (exists y, default_tahun df_spark = Some y /\
             In y (map Tahun df_spark) /\
             forall r, In r df_spark -> Tahun r <= y) /\
  (forall y, In y (list_tahun df_spark) ->
             filtered_spark df_spark y (list_kota df_spark)
             = filter (fun r => Tahun r =? y) df_spark /\
             filtered_spark df_spark y (list_kota df_spark) <> [] /\
             (forall log,
                 run env y (list_kota df_spark) format_choice
                 <> (Halted st_stop, log)) /\
             (forall code log,
                 run env y (list_kota df_spark) format_choice
                 <> (Halted (sys_exit code), log)) /\
             (sum_total_kasus env = Ok tt -> sum_umur env = Ok tt ->
              sum_gender env = Ok tt ->
              run env y (list_kota df_spark) format_choice
              = (Done (report_of env df_spark y (list_kota df_spark)),
                 log_complete env format_choice))).
Proof.
  intros I L NE. destruct (list_tahun_spec df_spark) as (S & M). split.
  - unfold default_tahun.
    destruct (list_tahun df_spark) as [| y l] eqn:E.
    + destruct df_spark as [| r df]; [congruence |].
      exfalso. apply (proj2 (M (Tahun r))). left. reflexivity.
    + exists y. split; [reflexivity |].
      split; [apply M; left; reflexivity |].
      intros r Ir. inversion S as [| ? ? _ F]; subst.
      assert (Iy : In (Tahun r) (y :: l)) by (apply M, in_map, Ir).
      destruct Iy as [<- | Iy]; [lia |].
      rewrite Forall_forall in F. specialize (F _ Iy). lia.
  - intros y Iy. pose proof (offered_year_has_rows df_spark y Iy) as NV.
    split; [apply all_regions_view |]. split; [exact NV |].
    pose proof (run_cases env y (list_kota df_spark) format_choice) as C.
    rewrite I, L in C. cbv zeta in C.
    split; [| split].
    + intros log E.
      destruct (filtered_spark df_spark y (list_kota df_spark)); [congruence |].
      destruct C as (log' & C). rewrite C in E.
      destruct (sum_total_kasus env), (sum_umur env), (sum_gender env);
        discriminate E.
    + intros code log E.
      destruct (filtered_spark df_spark y (list_kota df_spark)); [congruence |].
      destruct C as (log' & C). rewrite C in E.
      destruct (sum_total_kasus env), (sum_umur env), (sum_gender env);
        discriminate E.
    + intros St Su Sg. apply run_complete; assumption.
Qed.

Lemma default_selection_draws_witness :
  default_tahun (H := in_order) df_example = Some 2022 /\
  run (H := in_order) env_example 2022 (list_kota (H := in_order) df_example) JSON
  = (Done (report_of (H := in_order) env_example df_example 2022
             (list_kota (H := in_order) df_example)),
     log_complete env_example JSON).
Proof.
  assert (I : init_spark env_example = Ok tt) by reflexivity.
  assert (L : load_data env_example = Ok df_example) by (vm_compute; reflexivity).
  assert (NE : df_example <> []) by discriminate.
  split; [vm_compute; reflexivity |].
  assert (Iy : In 2022 (list_tahun (H := in_order) df_example))
    by (vm_compute; left; reflexivity).
  destruct (proj2 (default_selection_draws (H := in_order) env_example df_example
                     JSON I L NE) 2022 Iy) as (_ & _ & _ & _ & D).
  apply D; reflexivity.
Defined.

Lemma all_selected (kota_pilih list_kota : list str) :
  NoDup kota_pilih -> NoDup list_kota -> incl kota_pilih list_kota ->
  (List.length kota_pilih = List.length list_kota <-> incl list_kota kota_pilih).
Proof.
  intros N1 N2 Inc. split.
  - intro E. apply NoDup_length_incl; [exact N1 | lia | exact Inc].
  - intro Inc'. apply Nat.le_antisymm; apply NoDup_incl_length; assumption.
Qed.

(** X18. The caption of the selected regions. For a selection
    without repetition out of a region list without repetition, the
    caption is "Semua Kota/Kabupaten" when every region of the list is
    selected; otherwise it is the name of the region for one region,
    the names joined by ", " for two or three, and for more the first
    three names followed by the number of the others. *)
Theorem wilayah_display_cases (kota_pilih list_kota : list str) :
  NoDup kota_pilih -> NoDup list_kota -> incl kota_pilih list_kota ->
  (incl list_kota kota_pilih ->
   wilayah_display kota_pilih list_kota = lit "Semua Kota/Kabupaten") /\
  (~ incl list_kota kota_pilih ->
   wilayah_display kota_pilih list_kota
   = match kota_pilih with
     | [] => []
     | [a] => a
     | [a; b] => a ++ lit ", " ++ b
     | [a; b; c] => a ++ lit ", " ++ b ++ lit ", " ++ c
     | a :: b :: c :: _ :: others =>
         (a ++ lit ", " ++ b ++ lit ", " ++ c)
         ++ lit " dan " ++ decimal (S (List.length others)) ++ lit " lainnya"
     end).
Proof.
  intros N1 N2 Inc. pose proof (all_selected _ _ N1 N2 Inc) as A.
  unfold wilayah_display. split.
  - intro All. apply A in All. rewrite All, Nat.eqb_refl. reflexivity.
  - intro NotAll.
    assert (E : Nat.eqb (List.length kota_pilih) (List.length list_kota) = false).
    { apply Nat.eqb_neq. intro E. apply NotAll, A, E. }
    rewrite E.
    destruct kota_pilih as [| a [| b [| c [| d others]]]]; try reflexivity.
Qed.

Lemma wilayah_display_cases_witness :
  wilayah_display (kota_bandung ++ kota_bogor) (kota_bandung ++ kota_bogor)
  = lit "Semua Kota/Kabupaten" /\
  wilayah_display kota_bogor (kota_bandung ++ kota_bogor) = lit "KOTA BOGOR" /\
  wilayah_display
    [lit "A"; lit "B"; lit "C"; lit "D"; lit "E"]
    [lit "A"; lit "B"; lit "C"; lit "D"; lit "E"; lit "F"]
  = lit "A, B, C dan 2 lainnya".
Proof.
  assert (N : NoDup (kota_bandung ++ kota_bogor)).
  { repeat constructor; simpl; intuition discriminate. }
  split; [| split; vm_compute; reflexivity].
  apply (wilayah_display_cases _ _ N N (incl_refl _)), incl_refl.
Defined.

(** ** The dominant groups against the view *)

Lemma first_max_bound (K : Type) (t : list (K * Z)) (r p : K * Z) :
  first_max t r -> In p t -> snd p <= snd r.
Proof.
  intros (pre & post & -> & Fp & Fq) I. rewrite Forall_forall in Fp, Fq.
  apply in_app_or in I. destruct I as [I | [<- | I]].
  - specialize (Fp p I). lia.
  - lia.
  - apply Fq, I.
Qed.

Lemma sum_Z_le_max (l : list Z) (m : Z) :
  Forall (fun x => x <= m) l -> sum_Z l <= Z.of_nat (List.length l) * m.
Proof.
  induction 1 as [| x l Hx F IH]; simpl List.length; simpl sum_Z; [lia |].
  rewrite Nat2Z.inj_succ. lia.
Qed.

(** A row that is the maximum of a table of group totals, read
    against the view. *)
Lemma group_maximum (K : Type) (eqb : K -> K -> bool) (key : row -> K)
  (view : list row) (t : list (K * Z)) (r : K * Z) :
  (forall k, In k (map fst t) <-> In k (map key view)) ->
  (forall k v, In (k, v) t -> v = group_total eqb key k view) ->
  sum_Z (map snd t) = total_kasus view ->
  first_max t r ->
  In (fst r) (map key view) /\
  snd r = group_total eqb key (fst r) view /\
  (forall k, In k (map key view) -> group_total eqb key k view <= snd r) /\
  total_kasus view <= Z.of_nat (List.length t) * snd r.
Proof.
  intros Keys Tot Sum M. pose proof (first_max_In _ _ _ M) as I.
  destruct r as [k v]. simpl. split; [| split; [| split]].
  - apply Keys. change k with (fst (k, v)). apply in_map, I.
  - apply Tot, I.
  - intros k' Ik. apply Keys in Ik. apply in_map_iff in Ik.
    destruct Ik as ([k0 v0] & E & I0). simpl in E. subst k0.
    rewrite <- (Tot k' v0 I0). apply (first_max_bound _ _ _ _ M I0).
  - rewrite <- Sum, <- (length_map snd t). apply sum_Z_le_max.
    apply Forall_map, Forall_forall. intros p Ip.
    apply (first_max_bound _ _ _ _ M Ip).
Qed.

(** X19. The dominant groups are true maxima of the view. For a view
    that is not empty, the dominant age group is a label of the view,
    its total is the sum of the case counts of the rows with that
    label, no label of the view has a larger sum, and its total times
    the number of age groups is at least the total of the view; the
    same holds for the dominant gender. *)
Theorem dominant_is_maximum `{SparkExchange} (df_spark : list row)
  (tahun_pilih : Z) (kota_pilih : list str) :
  let view := filtered_spark df_spark tahun_pilih kota_pilih in
  view <> [] ->
  (exists name total,
      kelompok_dominan view = Some (name, total) /\
      In name (map Kelompok_Umur view) /\
      total = group_total str_eqb Kelompok_Umur name view /\
      (forall a, In a (map Kelompok_Umur view) ->
                 group_total str_eqb Kelompok_Umur a view <= total) /\
      total_kasus view <= Z.of_nat (List.length (rows (df_umur view))) * total) /\
  (exists name total,
      gender_dom view = Some (name, total) /\
      In name (map Jenis_Kelamin view) /\
      total = group_total str_eqb Jenis_Kelamin name view /\
      (forall g, In g (map Jenis_Kelamin view) ->
                 group_total str_eqb Jenis_Kelamin g view <= total) /\
      total_kasus view <= Z.of_nat (List.length (rows (df_gender view))) * total).
Proof.
  intros view NE. split.
  - destruct (kelompok_dominan_spec view NE) as ([name total] & E & M).
    exists name, total. split; [exact E |].
    destruct (df_umur_spark_spec view) as (_ & _ & Keys & Sum & Tot).
    pose proof (rows_df_umur_perm view) as P.
    apply (group_maximum _ str_eqb Kelompok_Umur view (rows (df_umur view))
             (name, total)).
    + intro k. rewrite <- Keys. split; intro I.
      * eapply Permutation_in; [apply Permutation_map, P | exact I].
      * eapply Permutation_in; [apply Permutation_map, Permutation_sym, P | exact I].
    + intros k v I. apply Tot. eapply Permutation_in; [exact P | exact I].
    + rewrite total_kasus_sum, <- Sum. apply sum_Z_perm, Permutation_map, P.
    + exact M.
  - destruct (gender_dom_spec view NE) as ([name total] & E & M).
    exists name, total. split; [exact E |].
    destruct (groupBy_sum_spec str_eqb str_eqb_eq Jenis_Kelamin view)
      as (_ & Keys & Sum & Tot).
    apply (group_maximum _ str_eqb Jenis_Kelamin view (rows (df_gender view))
             (name, total)).
    + unfold df_gender. rewrite rows_toPandas. exact Keys.
    + unfold df_gender. rewrite rows_toPandas. exact Tot.
    + unfold df_gender. rewrite rows_toPandas, total_kasus_sum. exact Sum.
    + exact M.
Qed.

Lemma dominant_is_maximum_witness :
  filtered_spark df_two_regions 2022 (kota_bandung ++ kota_bogor) <> [] /\
  exists name total,
    kelompok_dominan (H := reversed)
      (filtered_spark df_two_regions 2022 (kota_bandung ++ kota_bogor))
    = Some (name, total) /\
    In name (map Kelompok_Umur
               (filtered_spark df_two_regions 2022 (kota_bandung ++ kota_bogor))).
Proof.
  assert (NE : filtered_spark df_two_regions 2022 (kota_bandung ++ kota_bogor) <> [])
    by (vm_compute; discriminate).
  split; [exact NE |].
  destruct (proj1 (dominant_is_maximum (H := reversed) df_two_regions 2022
                     (kota_bandung ++ kota_bogor) NE))
    as (name & total & E & I & _).
  exists name, total. split; assumption.
Defined.



(** ** The marker of fifty and over *)

Lemma rlike_re_ge50 (s : str) :
  rlike s re_ge50 = true <->
  contains (lit ">=50") s \/ contains (ge_sign :: lit "50") s \/
  contains (mojibake_ge ++ lit "50") s.
Proof.
  unfold re_ge50. rewrite !rlike_Alt, !orb_true_iff, !rlike_word. tauto.
Qed.

(** X21. The bucket of fifty and over is decided by its marker alone:
    a label is normalised to it exactly when the trimmed label
    contains, anywhere, ">=50", the sign U+2265 followed by "50", or
    the mis-decoded form of that sign followed by "50", whatever else
    the label holds. *)
Theorem ge50_by_marker (raw : str) :
  Kelompok_Umur_when raw = label_ge50 <->
  contains (lit ">=50") (trim raw) \/
  contains (ge_sign :: lit "50") (trim raw) \/
  contains (mojibake_ge ++ lit "50") (trim raw).
Proof.
  rewrite <- rlike_re_ge50. unfold Kelompok_Umur_when.
  destruct (rlike (trim raw) re_ge50) eqn:E1; [tauto |].
  split; [| discriminate]. intro R. exfalso.
  repeat match type of R with
         | (if ?b then _ else _) = _ => destruct b; [vm_compute in R; discriminate R |]
         end.
  assert (C : rlike (trim raw) re_ge50 = true).
  { apply rlike_re_ge50. right. left. exists [], []. rewrite R. reflexivity. }
  congruence.
Qed.
